(** * IPTV add-on: catalog, meta and stream handlers, poster resolution
    and the in-memory TTL cache of [addon.js]

  The JavaScript program is embedded shallowly.  JSON records become
  Rocq records; a field that the source reads through optional chaining
  ([?.]) or guards with a truthiness test is an [option]; strings are
  [string]; the module-level cache and its timestamp are threaded
  explicitly through [getData].  Case mapping is modelled on the ASCII
  range (country codes, formats and genre names are ASCII). *)

From Stdlib Require Import String Ascii List ZArith Bool Lia Permutation Sorted.
Import ListNotations.
Local Open Scope string_scope.

(** ** JavaScript string primitives used by the source *)

Module Js.

(** A JSON field that holds a string when it is there: a missing key
    reads as [undefined], and the upstream documents also carry [null]. *)
Inductive value :=
| Undefined
| Null
| Str (s : string).

(** Truthiness: [undefined], [null] and the empty string are falsy. *)
Definition truthy (v : value) : bool :=
  match v with
  | Str s => negb (s =? "")
  | _ => false
  end.

(** [a || b] *)
Definition or (a b : value) : value :=
  if truthy a then a else b.

(** [a || d] where the right operand is a non-empty string literal. *)
Definition orDefault (a : value) (d : string) : string :=
  match a with
  | Str s => if s =? "" then d else s
  | _ => d
  end.

(** [a ?? b]: the right operand replaces [undefined] and [null] only. *)
Definition nullish (a b : value) : value :=
  match a with
  | Undefined | Null => b
  | Str _ => a
  end.

(** [a ?? d] where the right operand is a string literal. *)
Definition nullishDefault (a : value) (d : string) : string :=
  match a with
  | Undefined | Null => d
  | Str s => s
  end.

(** [String(v)], as applied by template literals and property keys. *)
Definition toString (v : value) : string :=
  match v with
  | Undefined => "undefined"
  | Null => "null"
  | Str s => s
  end.

(** [a === b] *)
Definition strictEq (a b : value) : bool :=
  match a, b with
  | Str x, Str y => x =? y
  | Undefined, Undefined => true
  | Null, Null => true
  | _, _ => false
  end.

Definition startsWith (s p : string) : bool := prefix p s.

Fixpoint skip (n : nat) (s : string) : string :=
  match n, s with
  | O, _ => s
  | S n', String _ s' => skip n' s'
  | S _, EmptyString => EmptyString
  end.

Definition endsWith (s p : string) : bool :=
  (String.length p <=? String.length s)%nat
  && (skip (String.length s - String.length p) s =? p).

(** [s.includes(q)] *)
Fixpoint includes (s q : string) : bool :=
  prefix q s ||
  match s with
  | EmptyString => false
  | String _ s' => includes s' q
  end.

(** [s.replace(pat, rep)] for a string pattern: the first occurrence
    only.  The replacement strings of the source hold no [$]. *)
Fixpoint replace (s pat rep : string) : string :=
  if prefix pat s then rep ++ skip (String.length pat) s
  else match s with
       | EmptyString => EmptyString
       | String c s' => String c (replace s' pat rep)
       end.

Definition lowerChar (c : ascii) : ascii :=
  let n := nat_of_ascii c in
  if ((65 <=? n) && (n <=? 90))%nat then ascii_of_nat (n + 32) else c.

Definition upperChar (c : ascii) : ascii :=
  let n := nat_of_ascii c in
  if ((97 <=? n) && (n <=? 122))%nat then ascii_of_nat (n - 32) else c.

Fixpoint mapChars (f : ascii -> ascii) (s : string) : string :=
  match s with
  | EmptyString => EmptyString
  | String c s' => String (f c) (mapChars f s')
  end.

Definition toLowerCase : string -> string := mapChars lowerChar.
Definition toUpperCase : string -> string := mapChars upperChar.

(** [xs.includes(x)] on an array of strings. *)
Definition arrayIncludes (xs : list string) (x : string) : bool :=
  existsb (String.eqb x) xs.

(** [xs.join(sep)] *)
Definition join (sep : string) (xs : list string) : string :=
  String.concat sep xs.

(** [xs.sort(cmp)]: the sort is stable, so its result is the one of a
    stable insertion sort with the same comparator. *)
Section Sort.
Context {A : Type} (cmp : A -> A -> Z).

Fixpoint insert (x : A) (l : list A) : list A :=
  match l with
  | [] => [x]
  | y :: ys => if (cmp x y <=? 0)%Z then x :: y :: ys else y :: insert x ys
  end.

Fixpoint sort (l : list A) : list A :=
  match l with
  | [] => []
  | x :: xs => insert x (sort xs)
  end.
End Sort.

End Js.

(** ** Upstream records *)

Module Channel.
Record t := mk {
  id : Js.value;
  name : string;
  country : Js.value;
  categories : option (list string);
  logo : Js.value
}.
End Channel.

Module Stream.
Record t := mk {
  channel : Js.value;
  url : string
}.
End Stream.

Module Guide.
Record t := mk {
  channel : Js.value;
  now : Js.value;
  next : Js.value;
  image : Js.value
}.
End Guide.

Module Logo.
Record t := mk {
  channel : Js.value;
  url : string;
  width : Z;
  format : option string;
  tags : option (list string)
}.
End Logo.

(** The object built by [extractGuideDetails]. *)
Module GuideDetails.
Record t := mk {
  nowPlaying : string;
  next : string;
  currentShowImage : Js.value
}.
End GuideDetails.

(** The object built by [toMeta]. *)
Module Meta.
Record t := mk {
  id : string;
  type : string;
  name : string;
  poster : string;
  posterShape : string;
  background : string;
  logo : string;
  description : string
}.
End Meta.

(** [let config = { countries: [], genres: [] }] *)
Record Config := mkConfig {
  countries : list string;
  genres : list string
}.

(** The object built from the [:extra] path segment: a key that the
    segment does not carry reads as [undefined]. *)
Record Params := mkParams {
  genre : Js.value;
  search : Js.value
}.

(** ** Constants *)

Definition IPTV_CHANNELS_URL := "https://iptv-org.github.io/api/channels.json".
Definition IPTV_STREAMS_URL := "https://iptv-org.github.io/api/streams.json".
Definition IPTV_GUIDES_URL := "https://iptv-org.github.io/api/guides.json".

(** One hour, in milliseconds. *)
Definition TTL : Z := 60 * 60 * 1000.

Definition PLACEHOLDER := "https://dl.strem.io/addon-background-landscape.jpg".

(** [`https://iptv-org.github.io/logo/${id}.png`] *)
Definition logoTemplate (id : Js.value) : string :=
  "https://iptv-org.github.io/logo/" ++ Js.toString id ++ ".png".

(** [`iptv-${id}`] *)
Definition prefixed (id : Js.value) : string := "iptv-" ++ Js.toString id.

(** ** The cache of channels, streams and guides *)

Record Cache := mkCache {
  channels : option (list Channel.t);
  streams : option (list Stream.t);
  guides : option (list Guide.t)
}.

(** The two module-level variables [cache] and [lastFetch]. *)
Record Store := mkStore {
  cache : Cache;
  lastFetch : Z
}.

Definition initialStore : Store :=
  mkStore (mkCache None None None) 0.

(** What the three [axios.get] calls of one refresh settle to: the parsed
    document, or [None] when the request is rejected. *)
Record Upstream := mkUpstream {
  getChannels : option (list Channel.t);
  getStreams : option (list Stream.t);
  getGuides : option (list Guide.t)
}.

(** How a call of [getData] ends. *)
Inductive Settled :=
| Resolved (c : Cache)
| Rejected.

Definition isSome {A : Type} (o : option A) : bool :=
  match o with
  | Some _ => true
  | None => false
  end.

(** The guard of line 49, evaluated with [Date.now() = now]. *)
Definition cacheFresh (st : Store) (now : Z) : bool :=
  isSome (channels (cache st)) && (now - lastFetch st <? TTL)%Z.

(** Lines 57-58: the part of [getData] after the [await], which runs
    without interruption, with [Date.now() = now']. *)
Definition commit (c : list Channel.t) (s : list Stream.t) (g : list Guide.t)
    (now' : Z) : Store :=
  mkStore (mkCache (Some c) (Some s) (Some g)) now'.

(** [getData], run to completion from store [st]: [now] is the clock at
    the guard, [net] what the upstream answers, [now'] the clock once the
    answers are in.  The result carries the settled value, the store the
    call leaves behind and the requests it issued, in order. *)
Definition getData (st : Store) (now : Z) (net : Upstream) (now' : Z)
    : Settled * Store * list string :=
  if cacheFresh st now then (Resolved (cache st), st, [])
  else
    let requests := [IPTV_CHANNELS_URL; IPTV_STREAMS_URL; IPTV_GUIDES_URL] in
    match getChannels net, getStreams net, getGuides net with
    | Some c, Some s, Some g =>
        let st' := commit c s g now' in
        (Resolved (cache st'), st', requests)
    | _, _, _ => (Rejected, st, requests)
    end.

(** ** Helpers *)

(** The [return] statement of [getPoster] that produces the poster. *)
Inductive ReturnSite :=
| AtGuideImage
| AtWidestLogo
| AtChannelLogo
| AtTemplate
| AtPlaceholder.

(** The predicate of [logos.filter] in [getPoster]. *)
Definition isCandidate (channel : Channel.t) (l : Logo.t) : bool :=
  Js.strictEq (Logo.channel l) (Channel.id channel)
  && match Logo.tags l with
     | Some ts => Js.arrayIncludes ts "horizontal"
     | None => false
     end
  && match Logo.format l with
     | Some f => negb (Js.toLowerCase f =? "svg")
     | None => true
     end.

(** [(a, b) => b.width - a.width] *)
Definition byWidthDesc (a b : Logo.t) : Z := (Logo.width b - Logo.width a)%Z.

(** [guideDetails?.currentShowImage] *)
Definition guideImage (guideDetails : option GuideDetails.t) : Js.value :=
  match guideDetails with
  | Some d => GuideDetails.currentShowImage d
  | None => Js.Undefined
  end.

(** [getPoster], given the list [logos] that [fetchLogos] resolves to;
    the first component names the [return] statement taken.  The test
    [candidates.length] succeeds exactly when the sorted array has a first
    element, which is then [candidates[0]]. *)
Definition getPosterAt (logos : list Logo.t) (channel : Channel.t)
    (guideDetails : option GuideDetails.t) : ReturnSite * string :=
  if Js.truthy (guideImage guideDetails)
  then (AtGuideImage, Js.toString (guideImage guideDetails))
  else
    let candidates := filter (isCandidate channel) logos in
    match Js.sort byWidthDesc candidates with
    | first :: _ => (AtWidestLogo, Logo.url first)
    | [] =>
        if Js.truthy (Channel.logo channel)
           && negb (Js.endsWith (Js.toString (Channel.logo channel)) ".svg")
        then (AtChannelLogo, Js.toString (Channel.logo channel))
        else if Js.truthy (Channel.id channel)
        then (AtTemplate, logoTemplate (Channel.id channel))
        else (AtPlaceholder, PLACEHOLDER)
    end.

Definition getPoster (logos : list Logo.t) (channel : Channel.t)
    (guideDetails : option GuideDetails.t) : string :=
  snd (getPosterAt logos channel guideDetails).

Definition extractGuideDetails (guide : option Guide.t) : option GuideDetails.t :=
  match guide with
  | None => None
  | Some g =>
      Some (GuideDetails.mk
              (Js.orDefault (Guide.now g) "Unknown")
              (Js.orDefault (Guide.next g) "Unknown")
              (Js.or (Guide.image g) Js.Null))
  end.

(** [xs.filter(Boolean)] on an array of strings and absent values. *)
Fixpoint filterBoolean (xs : list Js.value) : list string :=
  match xs with
  | [] => []
  | x :: rest =>
      if Js.truthy x then Js.toString x :: filterBoolean rest
      else filterBoolean rest
  end.

Definition getGuideInfo (guides : list Guide.t) (channelID : Js.value)
    : option Guide.t :=
  find (fun g => Js.strictEq (Guide.channel g) channelID) guides.

(** A stream description of the [/stream] response. *)
Record StreamItem := mkStreamItem {
  url : string;
  title : string
}.

Section Handlers.

(** The table of [./countries]: [COUNTRIES k] is the value of [COUNTRIES[k]]. *)
Variable COUNTRIES : string -> Js.value.

Definition describe (channel : Channel.t) (guideDetails : option GuideDetails.t)
    : string :=
  Js.join " • "
    (filterBoolean
       [ Js.or (COUNTRIES (Js.toString (Channel.country channel)))
               (Channel.country channel);
         match Channel.categories channel with
         | Some cs => Js.Str (Js.join ", " cs)
         | None => Js.Undefined
         end;
         match guideDetails with
         | Some d =>
             Js.Str ("Now: " ++ GuideDetails.nowPlaying d
                     ++ " • Next: " ++ GuideDetails.next d)
         | None => Js.Null
         end ]).

Definition toMeta (logos : list Logo.t) (channel : Channel.t)
    (guideDetails : option GuideDetails.t) : Meta.t :=
  let poster := getPoster logos channel guideDetails in
  Meta.mk (prefixed (Channel.id channel)) "tv" (Channel.name channel)
          poster "landscape" poster poster
          (describe channel guideDetails).

(** The channels that the catalog handler keeps: the value of [results]
    at line 309. *)
Definition catalogResults (config : Config)
    (channels : list Channel.t) (streams : list Stream.t)
    (id : string) (params : Params) : list Channel.t :=
  let results :=
    filter (fun c =>
              existsb (fun s => Js.strictEq (Stream.channel s) (Channel.id c))
                      streams)
           channels in
  let results :=
    if Js.startsWith id "iptv-country-" then
      let country := Js.toUpperCase (Js.replace id "iptv-country-" "") in
      filter (fun c => Js.strictEq (Channel.country c) (Js.Str country)) results
    else results in
  let results :=
    if negb (length (genres config) =? 0)%nat then
      filter (fun c =>
                match Channel.categories c with
                | Some cs => existsb (fun g => Js.arrayIncludes (genres config) g) cs
                | None => false
                end)
             results
    else results in
  let results :=
    if Js.truthy (genre params) then
      filter (fun c =>
                match Channel.categories c with
                | Some cs => Js.arrayIncludes cs (Js.toString (genre params))
                | None => false
                end)
             results
    else results in
  if Js.truthy (search params) then
    let q := Js.toLowerCase (Js.toString (search params)) in
    filter (fun c => Js.includes (Js.toLowerCase (Channel.name c)) q) results
  else results.

(** The meta object of one channel, as both handlers build it. *)
Definition metaOf (logos : list Logo.t) (guides : list Guide.t)
    (channelID : Js.value) (channel : Channel.t) : Meta.t :=
  let guideInfo := getGuideInfo guides channelID in
  let details := extractGuideDetails guideInfo in
  toMeta logos channel details.

(** [GET /catalog/:type/:id/:extra?.json]: the array [metas]. *)
Definition catalogHandler (config : Config) (logos : list Logo.t)
    (channels : list Channel.t) (streams : list Stream.t)
    (guides : list Guide.t) (id : string) (params : Params) : list Meta.t :=
  map (fun channel => metaOf logos guides (Channel.id channel) channel)
      (catalogResults config channels streams id params).

(** [GET /meta/:type/:id.json]: [None] is the empty object of [{ meta: {} }]. *)
Definition metaHandler (logos : list Logo.t) (channels : list Channel.t)
    (guides : list Guide.t) (id : string) : option Meta.t :=
  let channelId := Js.replace id "iptv-" "" in
  match find (fun c => Js.strictEq (Channel.id c) (Js.Str channelId)) channels with
  | None => None
  | Some channel => Some (metaOf logos guides (Js.Str channelId) channel)
  end.

(** [GET /stream/:type/:id.json]: the array [streams] of the response. *)
Definition streamHandler (streams : list Stream.t) (id : string)
    : list StreamItem :=
  let channelId := Js.replace id "iptv-" "" in
  match find (fun s => Js.strictEq (Stream.channel s) (Js.Str channelId)) streams with
  | Some stream => [mkStreamItem (Stream.url stream) "Live"]
  | None => []
  end.

End Handlers.

(** ** Vocabulary of the specification *)

(** A field is usable when it holds a non-empty string: the source tests
    its fields by truthiness, under which the empty string counts as
    missing. *)
Definition Present (v : Js.value) (s : string) : Prop :=
  v = Js.Str s /\ s <> "".

Definition Missing (v : Js.value) : Prop := forall s, ~ Present v s.

(** A logo record qualifies for a channel: it belongs to the channel, is
    tagged [horizontal], and its format, when it has one, is not [svg] in
    any letter case. *)
Definition Qualifies (channel : Channel.t) (l : Logo.t) : Prop :=
  Logo.channel l = Channel.id channel
  /\ (exists ts, Logo.tags l = Some ts /\ In "horizontal" ts)
  /\ (forall f, Logo.format l = Some f -> Js.toLowerCase f <> "svg").

(** [a] may stand before [b] in an array sorted by descending width. *)
Definition widerOrEqual (a b : Logo.t) : Prop :=
  (Logo.width b <= Logo.width a)%Z.

(** The priority chain of the poster, case by case. *)
Inductive PosterByPriority (logos : list Logo.t) (channel : Channel.t)
    (guideDetails : option GuideDetails.t) : string -> Prop :=
| ByGuideImage img :
    Present (guideImage guideDetails) img ->
    PosterByPriority logos channel guideDetails img
| ByWidestLogo l :
    Missing (guideImage guideDetails) ->
    In l logos -> Qualifies channel l ->
    (forall l', In l' logos -> Qualifies channel l' ->
                (Logo.width l' <= Logo.width l)%Z) ->
    PosterByPriority logos channel guideDetails (Logo.url l)
| ByChannelLogo own :
    Missing (guideImage guideDetails) ->
    (forall l, In l logos -> ~ Qualifies channel l) ->
    Present (Channel.logo channel) own ->
    Js.endsWith own ".svg" = false ->
    PosterByPriority logos channel guideDetails own
| ByTemplate id :
    Missing (guideImage guideDetails) ->
    (forall l, In l logos -> ~ Qualifies channel l) ->
    (forall own, Present (Channel.logo channel) own ->
                 Js.endsWith own ".svg" = true) ->
    Present (Channel.id channel) id ->
    PosterByPriority logos channel guideDetails
      ("https://iptv-org.github.io/logo/" ++ id ++ ".png")
| ByPlaceholder :
    Missing (guideImage guideDetails) ->
    (forall l, In l logos -> ~ Qualifies channel l) ->
    (forall own, Present (Channel.logo channel) own ->
                 Js.endsWith own ".svg" = true) ->
    Missing (Channel.id channel) ->
    PosterByPriority logos channel guideDetails
      "https://dl.strem.io/addon-background-landscape.jpg".

(** The contract of [extractGuideDetails] as the specification words it,
    with [??] in place of the [||] of the source. *)
Definition extractGuideDetails_nullish (guide : option Guide.t)
    : option GuideDetails.t :=
  match guide with
  | None => None
  | Some g =>
      Some (GuideDetails.mk
              (Js.nullishDefault (Guide.now g) "Unknown")
              (Js.nullishDefault (Guide.next g) "Unknown")
              (Js.nullish (Guide.image g) Js.Null))
  end.

(** No field of the guide record holds the empty string. *)
Definition NoEmptyField (g : Guide.t) : Prop :=
  Guide.now g <> Js.Str "" /\ Guide.next g <> Js.Str ""
  /\ Guide.image g <> Js.Str "".

(** ** Sample data *)

(** The guide record [{}]. *)
Definition emptyGuide : Guide.t :=
  Guide.mk Js.Undefined Js.Undefined Js.Undefined Js.Undefined.

(** [{channel: "BBCOne.uk", now: "", next: "News", image: null}] *)
Definition guideWithEmptyNow : Guide.t :=
  Guide.mk (Js.Str "BBCOne.uk") (Js.Str "") (Js.Str "News") Js.Null.

Definition guideBBC : Guide.t :=
  Guide.mk (Js.Str "BBCOne.uk") (Js.Str "Weather") (Js.Str "News")
           (Js.Str "https://img.example/weather.jpg").

Definition channelBBC : Channel.t :=
  Channel.mk (Js.Str "BBCOne.uk") "BBC One" (Js.Str "UK")
             (Some ["general"; "news"]) Js.Undefined.

Definition channelCNN : Channel.t :=
  Channel.mk (Js.Str "CNN.us") "CNN" (Js.Str "US")
             (Some ["news"]) (Js.Str "https://img.example/cnn.png").

(** A channel that no stream record points to. *)
Definition channelDark : Channel.t :=
  Channel.mk (Js.Str "Dark.us") "Dark TV" (Js.Str "US")
             (Some ["news"]) Js.Null.

Definition streamBBC : Stream.t :=
  Stream.mk (Js.Str "BBCOne.uk") "https://cdn.example/bbc.m3u8".

Definition streamBBCalt : Stream.t :=
  Stream.mk (Js.Str "BBCOne.uk") "https://cdn.example/bbc-alt.m3u8".

Definition streamCNN : Stream.t :=
  Stream.mk (Js.Str "CNN.us") "https://cdn.example/cnn.m3u8".

(** A stream that belongs to no channel, as the upstream list has them. *)
Definition streamOrphan : Stream.t :=
  Stream.mk Js.Null "https://cdn.example/orphan.m3u8".

Definition logoBBCsvg : Logo.t :=
  Logo.mk (Js.Str "BBCOne.uk") "https://img.example/bbc.svg" 2048
          (Some "SVG") (Some ["horizontal"]).

Definition logoBBCsmall : Logo.t :=
  Logo.mk (Js.Str "BBCOne.uk") "https://img.example/bbc-512.png" 512
          (Some "PNG") (Some ["horizontal"; "color"]).

Definition logoBBCwide : Logo.t :=
  Logo.mk (Js.Str "BBCOne.uk") "https://img.example/bbc-1024.png" 1024
          None (Some ["horizontal"]).

Definition sampleCountries (code : string) : Js.value :=
  if code =? "UK" then Js.Str "United Kingdom"
  else if code =? "US" then Js.Str "United States"
  else Js.Undefined.

(** ** Vocabulary of the catalog specification *)

(** Some stream record carries the channel's id. *)
Definition HasStream (streams : list Stream.t) (c : Channel.t) : Prop :=
  exists s, In s streams /\ Stream.channel s = Channel.id c.

(** When the catalog id encodes a country, the channel's country is that
    code in upper case. *)
Definition CountryMatches (id : string) (c : Channel.t) : Prop :=
  forall code, id = "iptv-country-" ++ code ->
               Channel.country c = Js.Str (Js.toUpperCase code).

(** When the settings list genres, one of the channel's categories is in
    that list. *)
Definition InAllowList (config : Config) (c : Channel.t) : Prop :=
  genres config <> [] ->
  exists cs g, Channel.categories c = Some cs /\ In g cs /\ In g (genres config).

(** When the request carries a genre, the channel's categories hold
    exactly that genre. *)
Definition HasGenre (params : Params) (c : Channel.t) : Prop :=
  forall g, Present (genre params) g ->
            exists cs, Channel.categories c = Some cs /\ In g cs.

(** When the request carries a search text, the channel's name contains
    it, both taken in lower case. *)
Definition NameContains (params : Params) (c : Channel.t) : Prop :=
  forall q, Present (search params) q ->
            exists a b, Js.toLowerCase (Channel.name c)
                        = a ++ Js.toLowerCase q ++ b.

Definition Kept (config : Config) (streams : list Stream.t) (id : string)
    (params : Params) (c : Channel.t) : Prop :=
  HasStream streams c /\ CountryMatches id c /\ InAllowList config c
  /\ HasGenre params c /\ NameContains params c.

(** [sub] holds elements of [l] in the order they have in [l]. *)
Inductive Subsequence {A : Type} : list A -> list A -> Prop :=
| Subsequence_nil : Subsequence [] []
| Subsequence_skip x sub l : Subsequence sub l -> Subsequence sub (x :: l)
| Subsequence_keep x sub l : Subsequence sub l -> Subsequence (x :: sub) (x :: l).

(** The five tests of the catalog handler, as one test on a channel. *)
Definition hasStream (streams : list Stream.t) (c : Channel.t) : bool :=
  existsb (fun s => Js.strictEq (Stream.channel s) (Channel.id c)) streams.

Definition countryTest (id : string) (c : Channel.t) : bool :=
  negb (Js.startsWith id "iptv-country-")
  || Js.strictEq (Channel.country c)
       (Js.Str (Js.toUpperCase (Js.replace id "iptv-country-" ""))).

Definition allowListTest (config : Config) (c : Channel.t) : bool :=
  (length (genres config) =? 0)%nat
  || match Channel.categories c with
     | Some cs => existsb (fun g => Js.arrayIncludes (genres config) g) cs
     | None => false
     end.

Definition genreTest (params : Params) (c : Channel.t) : bool :=
  negb (Js.truthy (genre params))
  || match Channel.categories c with
     | Some cs => Js.arrayIncludes cs (Js.toString (genre params))
     | None => false
     end.

Definition searchTest (params : Params) (c : Channel.t) : bool :=
  negb (Js.truthy (search params))
  || Js.includes (Js.toLowerCase (Channel.name c))
       (Js.toLowerCase (Js.toString (search params))).

Definition keeps (config : Config) (streams : list Stream.t) (id : string)
    (params : Params) (c : Channel.t) : bool :=
  hasStream streams c && countryTest id c && allowListTest config c
  && genreTest params c && searchTest params c.

(** ** Vocabulary of the cache specification *)

(** The three datasets are cached together or not at all. *)
Definition Coherent (st : Store) : Prop :=
  cache st = mkCache None None None
  \/ exists c s g, cache st = mkCache (Some c) (Some s) (Some g).

(** The store a call of [getData] leaves behind, its settled value and the
    requests it issued. *)
Definition storeAfter (r : Settled * Store * list string) : Store := snd (fst r).
Definition settled (r : Settled * Store * list string) : Settled := fst (fst r).
Definition requests (r : Settled * Store * list string) : list string := snd r.

Definition sampleUpstream : Upstream :=
  mkUpstream (Some [channelBBC; channelCNN]) (Some [streamBBC; streamCNN])
             (Some [guideBBC]).

Definition laterUpstream : Upstream :=
  mkUpstream (Some [channelCNN]) (Some [streamCNN]) (Some []).

(** An upstream whose guides request is rejected. *)
Definition brokenUpstream : Upstream :=
  mkUpstream (Some [channelCNN]) (Some [streamCNN]) None.

(** ** The cache of logos *)

Definition IPTV_LOGOS_URL := "https://iptv-org.github.io/api/logos.json".

(** One day, in milliseconds. *)
Definition LOGOS_TTL : Z := 24 * 60 * 60 * 1000.

(** The two module-level variables [logosCache] and [logosLastFetch]. *)
Record LogoStore := mkLogoStore {
  logosCache : option (list Logo.t);
  logosLastFetch : Z
}.

Definition initialLogoStore : LogoStore := mkLogoStore None 0.

(** How a call of [fetchLogos] ends. *)
Inductive SettledLogos :=
| ResolvedLogos (logos : list Logo.t)
| RejectedLogos.

(** [fetchLogos], run to completion from store [st]: [now] is the clock at
    the guard of line 63, [res] what the request settles to ([None] when it
    is rejected), [now'] the clock once the answer is in. *)
Definition fetchLogos (st : LogoStore) (now : Z) (res : option (list Logo.t))
    (now' : Z) : SettledLogos * LogoStore * list string :=
  let refresh :=
    match res with
    | Some data => (ResolvedLogos data, mkLogoStore (Some data) now',
                    [IPTV_LOGOS_URL])
    | None => (RejectedLogos, st, [IPTV_LOGOS_URL])
    end in
  match logosCache st with
  | Some cached =>
      if (now - logosLastFetch st <? LOGOS_TTL)%Z
      then (ResolvedLogos cached, st, [])
      else refresh
  | None => refresh
  end.

(** ** Calls of [getData] in sequence *)

(** One call: the clock at its guard, what the upstream would answer, and
    the clock once the answers are in. *)
Record Call := mkCall {
  callAt : Z;
  callNet : Upstream;
  callDone : Z
}.

(** The calls of [calls] run one after the other, each from the store the
    previous one leaves; the result lists what each call settles to and the
    requests it issues. *)
Fixpoint getDataRun (st : Store) (calls : list Call)
    : list (Settled * list string) * Store :=
  match calls with
  | [] => ([], st)
  | c :: rest =>
      let '(v, st', reqs) := getData st (callAt c) (callNet c) (callDone c) in
      let '(outs, final) := getDataRun st' rest in
      ((v, reqs) :: outs, final)
  end.

(** A second logo as wide as [logoBBCwide], later in the list. *)
Definition logoBBCwideToo : Logo.t :=
  Logo.mk (Js.Str "BBCOne.uk") "https://img.example/bbc-1024-b.png" 1024
          (Some "png") (Some ["horizontal"]).

Definition logoCNNwide : Logo.t :=
  Logo.mk (Js.Str "CNN.us") "https://img.example/cnn-4096.png" 4096
          (Some "png") (Some ["horizontal"]).

(** A guide entry without an image. *)
Definition guideCNN : Guide.t :=
  Guide.mk (Js.Str "CNN.us") (Js.Str "Newsroom") Js.Undefined Js.Undefined.

(** ** More JavaScript primitives: arrays of strings *)

Module JsArray.

(** [s.split(sep)] for a separator of one character: the pieces between
    the separators, empty pieces included; the empty string gives [[""]]. *)
Fixpoint split (sep : ascii) (s : string) : list string :=
  match s with
  | EmptyString => [EmptyString]
  | String c s' =>
      if Ascii.eqb c sep then EmptyString :: split sep s'
      else match split sep s' with
           | w :: ws => String c w :: ws
           | [] => [String c EmptyString]
           end
  end.

(** [xs.filter(Boolean)] on an array of strings: the empty strings go. *)
Definition filterBoolean (xs : list string) : list string :=
  filter (fun x => Js.truthy (Js.Str x)) xs.

(** [[...new Set(xs)]]: each string once, at the place of its first
    occurrence; [seen] holds the strings met so far. *)
Fixpoint distinctFrom (seen xs : list string) : list string :=
  match xs with
  | [] => []
  | x :: rest =>
      if Js.arrayIncludes seen x then distinctFrom seen rest
      else x :: distinctFrom (x :: seen) rest
  end.

Definition distinct (xs : list string) : list string := distinctFrom [] xs.

(** The comparator of [xs.sort()] without an argument, on strings: the
    order of the code units, which on ASCII strings is the order of
    [String.compare]. *)
Definition defaultCompare (a b : string) : Z :=
  match String.compare a b with
  | Lt => (-1)%Z
  | Eq => 0%Z
  | Gt => 1%Z
  end.

(** [xs.indexOf(v)]: the first position of [v], or [-1]. *)
Fixpoint indexOf (xs : list string) (v : string) : Z :=
  match xs with
  | [] => (-1)%Z
  | x :: rest =>
      if x =? v then 0%Z
      else let i := indexOf rest v in
           if (i <? 0)%Z then (-1)%Z else (i + 1)%Z
  end.

(** [xs.splice(i, 1)] for [0 <= i]: the array without its element at [i]. *)
Definition splice1 (xs : list string) (i : Z) : list string :=
  (firstn (Z.to_nat i) xs ++ skipn (S (Z.to_nat i)) xs)%list.

(** [xs.push(v)] *)
Definition push (xs : list string) (v : string) : list string :=
  (xs ++ [v])%list.

End JsArray.

(** ** Saving the configuration *)

(** The two fields of the form that [POST /configure] reads. *)
Record Body := mkBody {
  bodyCountries : Js.value;
  bodyGenres : Js.value
}.

(** [(field || '').split(',').filter(Boolean)] *)
Definition parseList (field : Js.value) : list string :=
  JsArray.filterBoolean (JsArray.split "," (Js.orDefault field "")).

(** [POST /configure]: the value of [config] after the handler, which is
    also what [saveConfig] writes. *)
Definition configure (body : Body) : Config :=
  mkConfig (parseList (bodyCountries body)) (parseList (bodyGenres body)).

(** The string holds no comma. *)
Definition NoComma (s : string) : Prop := Js.includes s "," = false.

(** An entry that survives the form: not empty and without a comma. *)
Definition Plain (s : string) : Prop := s <> "" /\ NoComma s.

(** ** The manifest *)

(** An entry of [extra] in a catalog description. *)
Module Extra.
Record t := mk {
  name : string;
  options : option (list string)
}.
End Extra.

Module Catalog.
Record t := mk {
  type : string;
  id : string;
  name : string;
  extra : list Extra.t
}.
End Catalog.

Module Manifest.
Record t := mk {
  id : string;
  name : string;
  version : string;
  description : string;
  resources : list string;
  types : list string;
  idPrefixes : list string;
  catalogs : list Catalog.t
}.
End Manifest.

(** [[...new Set(channels.flatMap(c => c.categories || []))].sort()] *)
Definition allGenres (channels : list Channel.t) : list string :=
  Js.sort JsArray.defaultCompare
    (JsArray.distinct
       (flat_map (fun c => match Channel.categories c with
                           | Some cs => cs
                           | None => []
                           end)
                 channels)).

Section ManifestHandler.

(** The table of [./countries] and the list of its keys,
    [Object.keys(COUNTRIES)]. *)
Variable COUNTRIES : string -> Js.value.
Variable COUNTRY_CODES : list string.

Definition allowedCountries (config : Config) : list string :=
  if negb (length (countries config) =? 0)%nat then countries config
  else COUNTRY_CODES.

Definition catalogExtra (channels : list Channel.t) : list Extra.t :=
  [Extra.mk "search" None; Extra.mk "genre" (Some (allGenres channels))].

Definition countryCatalog (channels : list Channel.t) (code : string)
    : Catalog.t :=
  Catalog.mk "tv" ("iptv-country-" ++ Js.toLowerCase code)
             (Js.toString (COUNTRIES code) ++ " TV")
             (catalogExtra channels).

(** [GET /manifest.json] *)
Definition manifestHandler (config : Config) (channels : list Channel.t)
    : Manifest.t :=
  Manifest.mk "org.iptv.configurable" "IPTV" "1.1.0"
    "Live IPTV filtered by selected countries and genres"
    ["catalog"; "meta"; "stream"] ["tv"] ["iptv-"]
    (Catalog.mk "tv" "iptv-all" "All Channels" (catalogExtra channels)
     :: map (countryCatalog channels) (allowedCountries config)).

End ManifestHandler.


(** ** The selection lists of the configuration page *)

(** The state change of [toggle(el, type, value)] on [state[type]]. *)
Definition toggle (selected : list string) (value : string) : list string :=
  let i := JsArray.indexOf selected value in
  if (0 <=? i)%Z then JsArray.splice1 selected i
  else JsArray.push selected value.

(** What [update(type)] writes into the hidden input of the form. *)
Definition hiddenInput (selected : list string) : string :=
  Js.join "," selected.



Definition channelSports : Channel.t :=
  Channel.mk (Js.Str "Sky.uk") "Sky Sports" (Js.Str "UK")
             (Some ["sports"; "news"]) Js.Null.

(** A channel without categories. *)
Definition channelBare : Channel.t :=
  Channel.mk (Js.Str "Bare.fr") "Bare" (Js.Str "FR") None Js.Null.

(** * Properties *)

(** ** Strings *)

Section StringFacts.

Lemma prefix_app (p s : string) : prefix p (p ++ s) = true.
Proof.
  induction p as [|a p IH]; simpl.
  - destruct s; reflexivity.
  - destruct (ascii_dec a a) as [_|N]; [exact IH | now elim N].
Qed.

Lemma skip_app (p s : string) : Js.skip (String.length p) (p ++ s) = s.
Proof. induction p as [|a p IH]; simpl; [reflexivity | exact IH]. Qed.

Lemma replace_unfold (s pat rep : string) :
  Js.replace s pat rep =
  if prefix pat s then rep ++ Js.skip (String.length pat) s
  else match s with
       | EmptyString => EmptyString
       | String c s' => String c (Js.replace s' pat rep)
       end.
Proof. destruct s; reflexivity. Qed.

(** Removing a pattern from a string that starts with it leaves the rest. *)
Lemma replace_prefix (p s : string) : Js.replace (p ++ s) p "" = s.
Proof.
  rewrite replace_unfold, prefix_app, skip_app. reflexivity.
Qed.

Lemma startsWith_app (p s : string) : Js.startsWith (p ++ s) p = true.
Proof. apply prefix_app. Qed.

Lemma prefix_split (p s : string) :
  prefix p s = true -> exists r, s = p ++ r.
Proof.
  revert p; induction s as [|b s IH]; intros [|a p] H; simpl in *.
  - now exists "".
  - discriminate.
  - now exists (String b s).
  - destruct (ascii_dec a b) as [->|]; [|discriminate].
    destruct (IH _ H) as [r ->]. now exists r.
Qed.

Lemma startsWith_iff (s p : string) :
  Js.startsWith s p = true <-> exists r, s = p ++ r.
Proof.
  split; [apply prefix_split | intros [r ->]; apply prefix_app].
Qed.

Lemma eqb_empty_false (s : string) : (s =? "") = false <-> s <> "".
Proof. apply String.eqb_neq. Qed.

Lemma includes_unfold (s q : string) :
  Js.includes s q =
  prefix q s || match s with
                | EmptyString => false
                | String _ s' => Js.includes s' q
                end.
Proof. destruct s; reflexivity. Qed.

Lemma app_assoc_str (a b c : string) : (a ++ b) ++ c = a ++ (b ++ c).
Proof. induction a as [|x a IH]; simpl; [reflexivity | now rewrite IH]. Qed.

(** [includes] decides the substring relation. *)
Lemma includes_iff (s q : string) :
  Js.includes s q = true <-> exists a b, s = a ++ q ++ b.
Proof.
  split.
  - induction s as [|c s IH]; rewrite includes_unfold; intros H;
      apply orb_true_iff in H; destruct H as [H|H].
    + destruct (prefix_split _ _ H) as [r ->]. now exists "", r.
    + discriminate.
    + destruct (prefix_split _ _ H) as [r ->]. now exists "", r.
    + destruct (IH H) as (a & b & ->). now exists (String c a), b.
  - intros (a & b & ->). induction a as [|c a IH]; rewrite includes_unfold.
    + simpl. now rewrite prefix_app.
    + simpl. rewrite IH. apply orb_true_r.
Qed.

Lemma strictEq_iff (a b : Js.value) : Js.strictEq a b = true <-> a = b.
Proof.
  destruct a, b; simpl; split; intros H; try discriminate; try reflexivity.
  - apply String.eqb_eq in H. now subst.
  - injection H as ->. apply String.eqb_refl.
Qed.

Lemma strictEq_false_iff (a b : Js.value) : Js.strictEq a b = false <-> a <> b.
Proof.
  rewrite <- strictEq_iff. destruct (Js.strictEq a b); split; intros H;
    try reflexivity; try discriminate; try congruence.
Qed.

(** A truthy value is a non-empty string, and [toString] reads it. *)
Lemma truthy_iff (v : Js.value) :
  Js.truthy v = true <-> exists s, v = Js.Str s /\ s <> "".
Proof.
  destruct v as [| |s]; simpl; split; try discriminate.
  - intros (s & E & _). discriminate.
  - intros (s & E & _). discriminate.
  - intros H. exists s. split; [reflexivity|].
    apply String.eqb_neq. now destruct (s =? "").
  - intros (s' & E & N). injection E as ->.
    apply String.eqb_neq in N. now rewrite N.
Qed.

Lemma arrayIncludes_iff (xs : list string) (x : string) :
  Js.arrayIncludes xs x = true <-> In x xs.
Proof.
  unfold Js.arrayIncludes. rewrite existsb_exists. split.
  - intros (y & Hy & E). apply String.eqb_eq in E. now subst.
  - intros H. exists x. split; [assumption | apply String.eqb_refl].
Qed.

End StringFacts.

(** ** Sorting by width *)

Section SortFacts.
Context {A : Type} (cmp : A -> A -> Z).



Lemma insert_not_nil (x : A) (l : list A) : Js.insert cmp x l <> [].
Proof. destruct l as [|z l]; simpl; [|destruct (cmp x z <=? 0)%Z]; discriminate. Qed.

(** [candidates.length] is zero exactly when the sorted array has no
    first element. *)
Lemma sort_nil_iff (l : list A) : Js.sort cmp l = [] <-> l = [].
Proof.
  destruct l as [|x l]; simpl; split; intros H; try reflexivity.
  - now apply insert_not_nil in H.
  - discriminate.
Qed.

Lemma insert_length (x : A) (l : list A) :
  length (Js.insert cmp x l) = S (length l).
Proof.
  induction l as [|z l IH]; simpl; [reflexivity|].
  destruct (cmp x z <=? 0)%Z; simpl; [reflexivity | now rewrite IH].
Qed.

Lemma sort_length (l : list A) : length (Js.sort cmp l) = length l.
Proof.
  induction l as [|x l IH]; simpl; [reflexivity|].
  now rewrite insert_length, IH.
Qed.



End SortFacts.

Lemma insert_descending (x : Logo.t) (l : list Logo.t) :
  Sorted widerOrEqual l -> Sorted widerOrEqual (Js.insert byWidthDesc x l).
Proof.
  induction l as [|y l IH]; intros S; simpl.
  - repeat constructor.
  - unfold byWidthDesc at 1.
    destruct (Z.leb_spec (Logo.width y - Logo.width x) 0) as [L|L].
    + constructor; [assumption|]. constructor. unfold widerOrEqual. lia.
    + inversion S as [|? ? S' R]; subst. constructor; [now apply IH|].
      destruct l as [|z l]; simpl.
      * constructor. unfold widerOrEqual. lia.
      * unfold byWidthDesc at 1.
        destruct (Z.leb_spec (Logo.width z - Logo.width x) 0).
        -- constructor. unfold widerOrEqual. lia.
        -- constructor. now inversion R.
Qed.

Lemma sort_descending (l : list Logo.t) :
  Sorted widerOrEqual (Js.sort byWidthDesc l).
Proof.
  induction l as [|x l IH]; simpl; [constructor | now apply insert_descending].
Qed.

(** The sort is stable: records of one width keep their relative order. *)
Lemma insert_stable (w : Z) (x : Logo.t) (l : list Logo.t) :
  filter (fun y => (Logo.width y =? w)%Z) (Js.insert byWidthDesc x l)
  = filter (fun y => (Logo.width y =? w)%Z) (x :: l).
Proof.
  induction l as [|y l IH]; [reflexivity|].
  cbn [Js.insert]. unfold byWidthDesc at 1.
  destruct (Z.leb_spec (Logo.width y - Logo.width x) 0) as [L|L];
    [reflexivity|].
  cbn [filter] in *. rewrite IH.
  destruct (Z.eqb_spec (Logo.width y) w), (Z.eqb_spec (Logo.width x) w);
    try reflexivity.
  lia.
Qed.

Lemma sort_stable (w : Z) (l : list Logo.t) :
  filter (fun y => (Logo.width y =? w)%Z) (Js.sort byWidthDesc l)
  = filter (fun y => (Logo.width y =? w)%Z) l.
Proof.
  induction l as [|x l IH]; [reflexivity|].
  cbn [Js.sort]. rewrite insert_stable. cbn [filter]. now rewrite IH.
Qed.

(** The first element after sorting by descending width is a member of
    the array and no member is wider. *)
Lemma sort_widest (l : list Logo.t) :
  match Js.sort byWidthDesc l with
  | [] => l = []
  | h :: _ =>
      In h l /\ forall y, In y l -> (Logo.width y <= Logo.width h)%Z
  end.
Proof.
  induction l as [|x xs IH]; simpl; [reflexivity|].
  destruct (Js.sort byWidthDesc xs) as [|h t] eqn:E; simpl.
  - subst xs. split; [now left|]. intros y [<-|[]]. lia.
  - destruct IH as [Hin Hmax]. unfold byWidthDesc at 1.
    destruct (Z.leb_spec (Logo.width h - Logo.width x) 0) as [L|L].
    + split; [now left|]. intros y [<-|Hy]; [lia|].
      specialize (Hmax y Hy). lia.
    + split; [now right|]. intros y [<-|Hy]; [lia | now apply Hmax].
Qed.

(** ** Poster resolution *)

Lemma isCandidate_iff (channel : Channel.t) (l : Logo.t) :
  isCandidate channel l = true <-> Qualifies channel l.
Proof.
  unfold isCandidate, Qualifies.
  rewrite !andb_true_iff, strictEq_iff.
  split.
  - intros [[H1 H2] H3]. repeat split; try assumption.
    + destruct (Logo.tags l) as [ts|]; [|discriminate].
      exists ts. split; [reflexivity | now apply arrayIncludes_iff].
    + intros f Ef. rewrite Ef in H3. apply negb_true_iff in H3.
      now apply String.eqb_neq.
  - intros (H1 & (ts & Et & Hin) & H3). repeat split; try assumption.
    + rewrite Et. now apply arrayIncludes_iff.
    + destruct (Logo.format l) as [f|]; [|reflexivity].
      apply negb_true_iff, String.eqb_neq. now apply H3.
Qed.

Lemma truthy_Present (v : Js.value) :
  Js.truthy v = true -> Present v (Js.toString v).
Proof.
  intros H. apply truthy_iff in H. destruct H as (s & -> & N). now split.
Qed.

Lemma falsy_Missing (v : Js.value) : Js.truthy v = false <-> Missing v.
Proof.
  split.
  - intros H s [E N]. subst v. simpl in H.
    apply negb_false_iff, String.eqb_eq in H. contradiction.
  - intros H. destruct (Js.truthy v) eqn:E; [|reflexivity].
    elim (H _ (truthy_Present _ E)).
Qed.

Lemma no_candidate (logos : list Logo.t) (channel : Channel.t) :
  filter (isCandidate channel) logos = [] ->
  forall l, In l logos -> ~ Qualifies channel l.
Proof.
  intros E l Hin Q. apply isCandidate_iff in Q.
  assert (H : In l (filter (isCandidate channel) logos))
    by (apply filter_In; now split).
  rewrite E in H. exact H.
Qed.

Lemma own_logo_unusable (channel : Channel.t) :
  Js.truthy (Channel.logo channel)
  && negb (Js.endsWith (Js.toString (Channel.logo channel)) ".svg") = false ->
  forall own, Present (Channel.logo channel) own -> Js.endsWith own ".svg" = true.
Proof.
  intros H own [E N]. rewrite E in H. simpl in H.
  apply String.eqb_neq in N. rewrite N in H. simpl in H.
  now apply negb_false_iff in H.
Qed.

Lemma filter_none {A : Type} (f : A -> bool) (l : list A) :
  (forall x, In x l -> f x = false) -> filter f l = [].
Proof.
  induction l as [|x l IH]; intros H; simpl; [reflexivity|].
  rewrite (H x (or_introl eq_refl)). apply IH. intros y Hy. apply H. now right.
Qed.

Lemma no_qualifying_logo (logos : list Logo.t) (channel : Channel.t) :
  (forall l, In l logos -> ~ Qualifies channel l) ->
  filter (isCandidate channel) logos = [].
Proof.
  intros H. apply filter_none. intros l Hl.
  destruct (isCandidate channel l) eqn:E; [|reflexivity].
  elim (H l Hl). now apply isCandidate_iff.
Qed.

Lemma template_not_placeholder (id : string) :
  "https://iptv-org.github.io/logo/" ++ id ++ ".png" <> PLACEHOLDER.
Proof. unfold PLACEHOLDER. simpl. discriminate. Qed.

(** C1. For every channel and optional guide details, [getPoster]
    resolves the poster by strict priority, first match wins: the guide's
    [currentShowImage] when it is present, whatever the logos; otherwise
    the url of a widest logo record among those of the channel that are
    tagged [horizontal] and whose format is not [svg] in any letter case;
    otherwise the channel's own logo when it is present and does not end
    in [.svg]; otherwise the URL templated from the channel id; otherwise
    the fixed placeholder.  A field is present when it holds a non-empty
    string, which is what the guards of the source test. *)
Theorem getPoster_priority (logos : list Logo.t) (channel : Channel.t)
    (guideDetails : option GuideDetails.t) :
  PosterByPriority logos channel guideDetails
    (getPoster logos channel guideDetails).
Proof.
  unfold getPoster, getPosterAt.
  destruct (Js.truthy (guideImage guideDetails)) eqn:G; simpl.
  - apply ByGuideImage. now apply truthy_Present.
  - apply falsy_Missing in G.
    pose proof (sort_widest (filter (isCandidate channel) logos)) as W.
    destruct (Js.sort byWidthDesc (filter (isCandidate channel) logos))
      as [|first rest]; simpl.
    + pose proof (no_candidate _ _ W) as NC.
      destruct (Js.truthy (Channel.logo channel)
                && negb (Js.endsWith (Js.toString (Channel.logo channel)) ".svg"))
        eqn:L; simpl.
      * apply andb_true_iff in L. destruct L as [L1 L2].
        apply ByChannelLogo; try assumption.
        -- now apply truthy_Present.
        -- now apply negb_true_iff in L2.
      * pose proof (own_logo_unusable _ L) as NL.
        destruct (Js.truthy (Channel.id channel)) eqn:I; simpl.
        -- apply truthy_Present in I. unfold logoTemplate.
           now apply ByTemplate.
        -- apply falsy_Missing in I. now apply ByPlaceholder.
    + destruct W as [Hin Hmax].
      apply filter_In in Hin. destruct Hin as [Hin Q].
      apply ByWidestLogo; try assumption.
      * now apply isCandidate_iff.
      * intros l' Hl' Q'. apply Hmax. apply filter_In. split; [assumption|].
        now apply isCandidate_iff.
Qed.

(** The chain is strict: a present guide image decides the poster alone. *)
Lemma priority_guide_image_wins (logos : list Logo.t) (channel : Channel.t)
    (guideDetails : option GuideDetails.t) (img poster : string) :
  Present (guideImage guideDetails) img ->
  PosterByPriority logos channel guideDetails poster -> poster = img.
Proof.
  intros [E N] P.
  inversion P as [i [E' _]|l M|own M|id M|M]; subst.
  - rewrite E in E'. now injection E'.
  - elim (M img). now split.
  - elim (M img). now split.
  - elim (M img). now split.
  - elim (M img). now split.
Qed.

(** C10. For a channel whose id is a non-empty string, [getPoster] never
    leaves through the placeholder [return]: when the guide image, the
    qualifying logos and a usable own logo are all missing, the URL
    templated from the id is returned, and that URL is not the
    placeholder.  The poster can only equal the placeholder URL when the
    upstream data itself holds that URL as guide image, as the url of a
    qualifying logo or as the channel's logo. *)
Theorem placeholder_needs_missing_id (logos : list Logo.t)
    (channel : Channel.t) (guideDetails : option GuideDetails.t) (id : string) :
  Present (Channel.id channel) id ->
  fst (getPosterAt logos channel guideDetails) <> AtPlaceholder
  /\ (Missing (guideImage guideDetails) ->
      (forall l, In l logos -> ~ Qualifies channel l) ->
      (forall own, Present (Channel.logo channel) own ->
                   Js.endsWith own ".svg" = true) ->
      getPosterAt logos channel guideDetails
      = (AtTemplate, "https://iptv-org.github.io/logo/" ++ id ++ ".png")
      /\ getPoster logos channel guideDetails <> PLACEHOLDER)
  /\ (getPoster logos channel guideDetails = PLACEHOLDER ->
      guideImage guideDetails = Js.Str PLACEHOLDER
      \/ (exists l, In l logos /\ Qualifies channel l
                     /\ Logo.url l = PLACEHOLDER)
      \/ Channel.logo channel = Js.Str PLACEHOLDER).
Proof.
  intros [E N].
  assert (T : Js.truthy (Channel.id channel) = true).
  { apply truthy_iff. now exists id. }
  split; [|split].
  - unfold getPosterAt.
    destruct (Js.truthy (guideImage guideDetails)); [discriminate|].
    destruct (Js.sort byWidthDesc (filter (isCandidate channel) logos));
      [|discriminate].
    destruct (Js.truthy (Channel.logo channel) && _); [discriminate|].
    rewrite T. discriminate.
  - intros G NC NL.
    assert (R : getPosterAt logos channel guideDetails
                = (AtTemplate, "https://iptv-org.github.io/logo/" ++ id ++ ".png")).
    { unfold getPosterAt.
      apply falsy_Missing in G. rewrite G.
      rewrite (no_qualifying_logo _ _ NC). simpl.
      destruct (Js.truthy (Channel.logo channel)) eqn:L; simpl.
      - apply truthy_Present in L. rewrite (NL _ L). simpl.
        rewrite T. unfold logoTemplate. now rewrite E.
      - rewrite T. unfold logoTemplate. now rewrite E. }
    split; [exact R|].
    unfold getPoster. rewrite R. simpl snd. apply template_not_placeholder.
  - unfold getPoster, getPosterAt.
    destruct (Js.truthy (guideImage guideDetails)) eqn:G; simpl.
    + intros P. left. apply truthy_Present in G. destruct G as [G _].
      now rewrite G, P.
    + pose proof (sort_widest (filter (isCandidate channel) logos)) as W.
      destruct (Js.sort byWidthDesc (filter (isCandidate channel) logos))
        as [|first rest]; simpl.
      * destruct (Js.truthy (Channel.logo channel)
                  && negb (Js.endsWith (Js.toString (Channel.logo channel)) ".svg"))
          eqn:L; simpl.
        -- intros P. right. right. apply andb_true_iff in L.
           destruct L as [L _]. apply truthy_Present in L.
           destruct L as [L _]. now rewrite L, P.
        -- rewrite T. simpl. unfold logoTemplate. rewrite E. simpl Js.toString.
           intros P. now apply template_not_placeholder in P.
      * intros P. right. left. destruct W as [Hin _].
        apply filter_In in Hin. destruct Hin as [Hin Q].
        exists first. split; [assumption|]. split; [|assumption].
        now apply isCandidate_iff.
Qed.

Example getPoster_guide_over_logos :
  getPoster [logoBBCsmall; logoBBCwide] channelBBC
            (extractGuideDetails (Some guideBBC))
  = "https://img.example/weather.jpg".
Proof. reflexivity. Qed.

(** An empty-string guide image is falsy: the chain moves on to the logos. *)
Example getPoster_empty_guide_image :
  getPoster [logoBBCsmall; logoBBCwide] channelBBC
            (Some (GuideDetails.mk "Weather" "News" (Js.Str "")))
  = "https://img.example/bbc-1024.png".
Proof. reflexivity. Qed.

Example getPoster_widest_logo :
  getPoster [logoBBCsvg; logoBBCsmall; logoBBCwide] channelBBC None
  = "https://img.example/bbc-1024.png".
Proof. reflexivity. Qed.

Example getPoster_own_logo :
  getPoster [logoBBCsvg; logoBBCsmall] channelCNN None
  = "https://img.example/cnn.png".
Proof. reflexivity. Qed.

Lemma placeholder_needs_missing_id_witness :
  getPosterAt [logoBBCsvg] channelBBC None
  = (AtTemplate, "https://iptv-org.github.io/logo/BBCOne.uk.png").
Proof.
  assert (P : Present (Channel.id channelBBC) "BBCOne.uk")
    by (split; [reflexivity | discriminate]).
  destruct (placeholder_needs_missing_id [logoBBCsvg] channelBBC None
              "BBCOne.uk" P) as [_ H].
  apply H.
  - intros s [E _]. discriminate E.
  - intros l [<-|[]] (_ & _ & F). now apply (F "SVG").
  - intros own [E _]. discriminate E.
Defined.

(** ** Guide details *)

Lemma orDefault_Present (v : Js.value) (d s : string) :
  Present v s -> Js.orDefault v d = s.
Proof.
  intros [-> N]. simpl. apply String.eqb_neq in N. now rewrite N.
Qed.

Lemma orDefault_Missing (v : Js.value) (d : string) :
  Missing v -> Js.orDefault v d = d.
Proof.
  intros M. destruct v as [| |s]; simpl; try reflexivity.
  destruct (String.eqb_spec s ""); [reflexivity|]. elim (M s). now split.
Qed.

Lemma orDefault_nullish (v : Js.value) (d : string) :
  v <> Js.Str "" -> Js.orDefault v d = Js.nullishDefault v d.
Proof.
  destruct v as [| |s]; simpl; try reflexivity.
  intros N. destruct (String.eqb_spec s ""); [subst; now elim N | reflexivity].
Qed.

Lemma or_null_nullish (v : Js.value) :
  v <> Js.Str "" -> Js.or v Js.Null = Js.nullish v Js.Null.
Proof.
  destruct v as [| |s]; simpl; try reflexivity.
  intros N. unfold Js.or. simpl.
  destruct (String.eqb_spec s ""); [subst; now elim N | reflexivity].
Qed.

(** C6, as the claim states it, fails: a guide whose [now] is the empty
    string gets ["Unknown"], where [??] would keep the empty string. *)
Lemma extractGuideDetails_drops_empty_now :
  extractGuideDetails (Some guideWithEmptyNow)
  = Some (GuideDetails.mk "Unknown" "News" Js.Null)
  /\ extractGuideDetails_nullish (Some guideWithEmptyNow)
     = Some (GuideDetails.mk "" "News" Js.Null)
  /\ extractGuideDetails (Some guideWithEmptyNow)
     <> extractGuideDetails_nullish (Some guideWithEmptyNow).
Proof. repeat split. discriminate. Qed.

(** C6, amended. [extractGuideDetails] returns nothing exactly when the
    guide is absent; otherwise each of [now] and [next] is kept when it is
    a non-empty string and replaced by ["Unknown"] when it is absent or
    the empty string, and [image] is kept when it is a non-empty string
    and replaced by [null] otherwise; on [{}] the result is
    [{nowPlaying: "Unknown", next: "Unknown", currentShowImage: null}];
    and the result is the one the [??] contract gives whenever no field
    of the guide is the empty string. *)
Theorem extractGuideDetails_contract :
  extractGuideDetails None = None
  /\ (forall g, exists d,
        extractGuideDetails (Some g) = Some d
        /\ (forall s, Present (Guide.now g) s -> GuideDetails.nowPlaying d = s)
        /\ (Missing (Guide.now g) -> GuideDetails.nowPlaying d = "Unknown")
        /\ (forall s, Present (Guide.next g) s -> GuideDetails.next d = s)
        /\ (Missing (Guide.next g) -> GuideDetails.next d = "Unknown")
        /\ (forall s, Present (Guide.image g) s ->
                      GuideDetails.currentShowImage d = Js.Str s)
        /\ (Missing (Guide.image g) ->
            GuideDetails.currentShowImage d = Js.Null))
  /\ extractGuideDetails (Some emptyGuide)
     = Some (GuideDetails.mk "Unknown" "Unknown" Js.Null)
  /\ (forall g, NoEmptyField g ->
        extractGuideDetails (Some g) = extractGuideDetails_nullish (Some g)).
Proof.
  split; [reflexivity|]. split; [|split; [reflexivity|]].
  - intros g. eexists. split; [reflexivity|]. simpl.
    repeat split.
    + apply orDefault_Present.
    + apply orDefault_Missing.
    + apply orDefault_Present.
    + apply orDefault_Missing.
    + intros s [E N]. unfold Js.or. rewrite E. simpl.
      apply String.eqb_neq in N. now rewrite N.
    + intros M. apply falsy_Missing in M. unfold Js.or. now rewrite M.
  - intros g (N1 & N2 & N3). simpl.
    now rewrite !orDefault_nullish, or_null_nullish.
Qed.

Lemma extractGuideDetails_contract_witness :
  extractGuideDetails (Some guideBBC)
  = extractGuideDetails_nullish (Some guideBBC).
Proof.
  apply (proj2 (proj2 (proj2 extractGuideDetails_contract))).
  repeat split; discriminate.
Defined.

(** ** Lookups by channel id *)

Lemma find_absent {A : Type} (f : A -> bool) (l : list A) :
  (forall y, In y l -> f y = false) -> find f l = None.
Proof.
  induction l as [|x l IH]; intros H; simpl; [reflexivity|].
  rewrite (H x (or_introl eq_refl)). apply IH. intros y Hy. apply H. now right.
Qed.

Lemma find_first {A : Type} (f : A -> bool) (pre : list A) (x : A)
    (post : list A) :
  f x = true -> (forall y, In y pre -> f y = false) ->
  find f (pre ++ x :: post)%list = Some x.
Proof.
  intros Hx. induction pre as [|p pre IH]; intros H; simpl.
  - now rewrite Hx.
  - rewrite (H p (or_introl eq_refl)). apply IH. intros y Hy. apply H. now right.
Qed.

(** What [find] returns is the first match: the array splits around it. *)
Lemma find_split {A : Type} (f : A -> bool) (l : list A) (x : A) :
  find f l = Some x ->
  exists pre post, l = (pre ++ x :: post)%list /\ f x = true
                   /\ forall y, In y pre -> f y = false.
Proof.
  induction l as [|a l IH]; simpl; [discriminate|].
  destruct (f a) eqn:E.
  - intros [= ->]. exists [], l. repeat split; [assumption | intros y []].
  - intros H. destruct (IH H) as (pre & post & -> & Hx & Hpre).
    exists (a :: pre), post. repeat split; [assumption|].
    intros y [<-|Hy]; [assumption | now apply Hpre].
Qed.

(** The meta handler on any id: the lookup key is the id without the
    first occurrence of the marker. *)
Lemma metaHandler_any_id (COUNTRIES : string -> Js.value)
    (logos : list Logo.t) (channels : list Channel.t) (guides : list Guide.t)
    (id : string) :
  metaHandler COUNTRIES logos channels guides id
  = match find (fun c => Js.strictEq (Channel.id c)
                                     (Js.Str (Js.replace id "iptv-" "")))
               channels with
    | None => None
    | Some c =>
        Some (toMeta COUNTRIES logos c
                (extractGuideDetails
                   (getGuideInfo guides (Js.Str (Js.replace id "iptv-" "")))))
    end.
Proof. reflexivity. Qed.

Lemma streamHandler_any_id (streams : list Stream.t) (id : string) :
  streamHandler streams id
  = match find (fun s => Js.strictEq (Stream.channel s)
                                     (Js.Str (Js.replace id "iptv-" "")))
               streams with
    | Some s => [mkStreamItem (Stream.url s) "Live"]
    | None => []
    end.
Proof. reflexivity. Qed.

(** C7. For a prefixed id whose channel id matches no channel of the
    cached list the meta handler answers with the empty placeholder; when
    the id matches, it answers with the meta object that [toMeta] builds
    from the first matching channel and the guide details extracted from
    that channel's guide entry. *)
Theorem metaHandler_contract (COUNTRIES : string -> Js.value)
    (logos : list Logo.t) (channels : list Channel.t) (guides : list Guide.t)
    (channelId : string) :
  ((forall c, In c channels -> Channel.id c <> Js.Str channelId) ->
   metaHandler COUNTRIES logos channels guides ("iptv-" ++ channelId) = None)
  /\ (forall pre c post,
        channels = (pre ++ c :: post)%list ->
        Channel.id c = Js.Str channelId ->
        (forall c', In c' pre -> Channel.id c' <> Js.Str channelId) ->
        metaHandler COUNTRIES logos channels guides ("iptv-" ++ channelId)
        = Some (toMeta COUNTRIES logos c
                  (extractGuideDetails
                     (getGuideInfo guides (Js.Str channelId))))).
Proof.
  rewrite metaHandler_any_id, replace_prefix. split.
  - intros H. rewrite find_absent; [reflexivity|].
    intros c Hc. now apply strictEq_false_iff, H.
  - intros pre c post -> Hc Hpre. rewrite find_first; [reflexivity| |].
    + now apply strictEq_iff.
    + intros c' Hc'. now apply strictEq_false_iff, Hpre.
Qed.

Lemma metaHandler_contract_witness :
  metaHandler sampleCountries [] [channelBBC; channelCNN] [guideBBC]
              "iptv-unknownid" = None
  /\ metaHandler sampleCountries [] [channelBBC; channelCNN] [guideBBC]
                 "iptv-CNN.us"
     = Some (toMeta sampleCountries [] channelCNN None).
Proof.
  split.
  - apply (proj1 (metaHandler_contract sampleCountries []
                    [channelBBC; channelCNN] [guideBBC] "unknownid")).
    intros c [<-|[<-|[]]]; discriminate.
  - apply (proj2 (metaHandler_contract sampleCountries []
                    [channelBBC; channelCNN] [guideBBC] "CNN.us")
             [channelBBC] channelCNN []); [reflexivity | reflexivity |].
    intros c [<-|[]]. discriminate.
Defined.

(** C8. For a prefixed id: when some stream record has the channel id,
    the stream handler answers with the one-element list holding the url
    of the first such record in input order, titled ["Live"]; when none
    has it, with the empty list. *)
Theorem streamHandler_contract (streams : list Stream.t) (channelId : string) :
  ((forall s, In s streams -> Stream.channel s <> Js.Str channelId) ->
   streamHandler streams ("iptv-" ++ channelId) = [])
  /\ (forall pre s post,
        streams = (pre ++ s :: post)%list ->
        Stream.channel s = Js.Str channelId ->
        (forall s', In s' pre -> Stream.channel s' <> Js.Str channelId) ->
        streamHandler streams ("iptv-" ++ channelId)
        = [mkStreamItem (Stream.url s) "Live"]).
Proof.
  rewrite streamHandler_any_id, replace_prefix. split.
  - intros H. rewrite find_absent; [reflexivity|].
    intros s Hs. now apply strictEq_false_iff, H.
  - intros pre s post -> Hs Hpre. rewrite find_first; [reflexivity| |].
    + now apply strictEq_iff.
    + intros s' Hs'. now apply strictEq_false_iff, Hpre.
Qed.

Lemma streamHandler_contract_witness :
  streamHandler [streamOrphan; streamCNN] "iptv-BBCOne.uk" = []
  /\ streamHandler [streamOrphan; streamBBC; streamCNN; streamBBCalt]
                   "iptv-BBCOne.uk"
     = [mkStreamItem "https://cdn.example/bbc.m3u8" "Live"].
Proof.
  split.
  - apply (proj1 (streamHandler_contract [streamOrphan; streamCNN] "BBCOne.uk")).
    intros s [<-|[<-|[]]]; discriminate.
  - apply (proj2 (streamHandler_contract
                    [streamOrphan; streamBBC; streamCNN; streamBBCalt]
                    "BBCOne.uk")
             [streamOrphan] streamBBC [streamCNN; streamBBCalt]);
      [reflexivity | reflexivity |].
    intros s [<-|[]]. discriminate.
Defined.

(** ** The id prefix *)

(** C9. The id of the meta object that [toMeta] builds is the marker
    ["iptv-"] followed by the channel's id; removing the marker as the
    handlers do gives the channel id back, for every channel id; and the
    meta and the stream handler both look up that same id. *)
Theorem prefix_strip_inverse (COUNTRIES : string -> Js.value) :
  (forall logos channel guideDetails,
     Meta.id (toMeta COUNTRIES logos channel guideDetails)
     = "iptv-" ++ Js.toString (Channel.id channel))
  /\ (forall s, Js.replace ("iptv-" ++ s) "iptv-" "" = s)
  /\ (forall s logos channels guides,
        metaHandler COUNTRIES logos channels guides ("iptv-" ++ s)
        = match find (fun c => Js.strictEq (Channel.id c) (Js.Str s)) channels with
          | None => None
          | Some c =>
              Some (toMeta COUNTRIES logos c
                      (extractGuideDetails (getGuideInfo guides (Js.Str s))))
          end)
  /\ (forall s streams,
        streamHandler streams ("iptv-" ++ s)
        = match find (fun r => Js.strictEq (Stream.channel r) (Js.Str s)) streams with
          | Some r => [mkStreamItem (Stream.url r) "Live"]
          | None => []
          end).
Proof.
  split; [reflexivity|]. split; [intros s; apply replace_prefix|]. split.
  - intros s logos channels guides.
    now rewrite metaHandler_any_id, replace_prefix.
  - intros s streams. now rewrite streamHandler_any_id, replace_prefix.
Qed.

(** The meta handler finds, under the id of a meta object, a channel that
    carries the same id. *)
Lemma meta_id_roundtrip (COUNTRIES : string -> Js.value)
    (logos : list Logo.t) (channels : list Channel.t) (guides : list Guide.t)
    (channel : Channel.t) (guideDetails : option GuideDetails.t) (s : string) :
  In channel channels -> Channel.id channel = Js.Str s ->
  exists m,
    metaHandler COUNTRIES logos channels guides
      (Meta.id (toMeta COUNTRIES logos channel guideDetails)) = Some m
    /\ Meta.id m = Meta.id (toMeta COUNTRIES logos channel guideDetails).
Proof.
  intros Hin E. simpl Meta.id at 1. unfold prefixed. rewrite E. simpl Js.toString.
  rewrite metaHandler_any_id, replace_prefix.
  destruct (find _ channels) as [c|] eqn:F.
  - eexists. split; [reflexivity|]. simpl. unfold prefixed.
    apply find_some in F. destruct F as [_ F]. apply strictEq_iff in F.
    now rewrite F, E.
  - exfalso. apply (find_none _ _ F) in Hin.
    apply strictEq_false_iff in Hin. contradiction.
Qed.

(** ** The catalog *)

Lemma filter_all {A : Type} (l : list A) : filter (fun _ => true) l = l.
Proof. induction l as [|x l IH]; simpl; [reflexivity | now rewrite IH]. Qed.

Lemma filter_twice {A : Type} (f g : A -> bool) (l : list A) :
  filter f (filter g l) = filter (fun x => g x && f x) l.
Proof.
  induction l as [|x l IH]; simpl; [reflexivity|].
  destruct (g x); simpl; [destruct (f x)|]; now rewrite IH.
Qed.

Lemma filter_when {A : Type} (b : bool) (f : A -> bool) (l : list A) :
  (if b then filter f l else l) = filter (fun x => negb b || f x) l.
Proof. destruct b; simpl; [reflexivity | now rewrite filter_all]. Qed.

Lemma filter_Subsequence {A : Type} (f : A -> bool) (l : list A) :
  Subsequence (filter f l) l.
Proof.
  induction l as [|x l IH]; simpl; [constructor|].
  destruct (f x); now constructor.
Qed.

(** The successive filters of the handler amount to one filter. *)
Lemma catalogResults_keeps (config : Config) (channels : list Channel.t)
    (streams : list Stream.t) (id : string) (params : Params) :
  catalogResults config channels streams id params
  = filter (keeps config streams id params) channels.
Proof.
  unfold catalogResults. cbv zeta.
  rewrite (filter_when (Js.truthy (search params))).
  rewrite (filter_when (Js.truthy (genre params))).
  rewrite (filter_when (negb (length (genres config) =? 0)%nat)).
  rewrite (filter_when (Js.startsWith id "iptv-country-")).
  rewrite !filter_twice.
  apply filter_ext. intros c. unfold keeps, hasStream, countryTest,
    allowListTest, genreTest, searchTest.
  now rewrite negb_involutive, !andb_assoc.
Qed.

Lemma hasStream_iff (streams : list Stream.t) (c : Channel.t) :
  hasStream streams c = true <-> HasStream streams c.
Proof.
  unfold hasStream, HasStream. rewrite existsb_exists.
  split; intros (s & Hs & E); exists s; (split; [assumption|]);
    now apply strictEq_iff.
Qed.

Lemma countryTest_iff (id : string) (c : Channel.t) :
  countryTest id c = true <-> CountryMatches id c.
Proof.
  unfold countryTest, CountryMatches. split.
  - intros H code ->. rewrite startsWith_app, replace_prefix in H.
    simpl in H. now apply strictEq_iff.
  - intros H. destruct (Js.startsWith id "iptv-country-") eqn:S;
      [|reflexivity].
    apply startsWith_iff in S. destruct S as [code ->].
    rewrite replace_prefix. simpl. now apply strictEq_iff, H.
Qed.

Lemma allowListTest_iff (config : Config) (c : Channel.t) :
  allowListTest config c = true <-> InAllowList config c.
Proof.
  unfold allowListTest, InAllowList.
  destruct (Nat.eqb_spec (length (genres config)) 0) as [Z|NZ].
  - apply length_zero_iff_nil in Z. split; [intros _ N; now elim N | reflexivity].
  - rewrite orb_false_l. split.
    + intros H _. destruct (Channel.categories c) as [cs|]; [|discriminate].
      apply existsb_exists in H. destruct H as (g & Hg & Ha).
      exists cs, g. repeat split; [assumption|]. now apply arrayIncludes_iff.
    + intros H. destruct H as (cs & g & -> & Hg & Ha).
      * intros E. apply NZ. now rewrite E.
      * apply existsb_exists. exists g. split; [assumption|].
        now apply arrayIncludes_iff.
Qed.

Lemma genreTest_iff (params : Params) (c : Channel.t) :
  genreTest params c = true <-> HasGenre params c.
Proof.
  unfold genreTest, HasGenre. split.
  - intros H g [E N]. rewrite E in H. simpl in H.
    apply String.eqb_neq in N. rewrite N in H. simpl in H.
    destruct (Channel.categories c) as [cs|]; [|discriminate].
    exists cs. split; [reflexivity | now apply arrayIncludes_iff].
  - intros H. destruct (Js.truthy (genre params)) eqn:T; [|reflexivity].
    simpl. destruct (H _ (truthy_Present _ T)) as (cs & -> & Hin).
    now apply arrayIncludes_iff.
Qed.

Lemma searchTest_iff (params : Params) (c : Channel.t) :
  searchTest params c = true <-> NameContains params c.
Proof.
  unfold searchTest, NameContains. split.
  - intros H q [E N]. rewrite E in H. simpl in H.
    apply String.eqb_neq in N. rewrite N in H. simpl in H.
    now apply includes_iff.
  - intros H. destruct (Js.truthy (search params)) eqn:T; [|reflexivity].
    simpl. apply includes_iff. now apply H, truthy_Present.
Qed.

Lemma keeps_iff (config : Config) (streams : list Stream.t) (id : string)
    (params : Params) (c : Channel.t) :
  keeps config streams id params c = true <-> Kept config streams id params c.
Proof.
  unfold keeps, Kept. rewrite !andb_true_iff.
  rewrite hasStream_iff, countryTest_iff, allowListTest_iff, genreTest_iff,
    searchTest_iff.
  tauto.
Qed.


(** The filters in the order the handler applies them. *)
Lemma catalogResults_stages (config : Config) (channels : list Channel.t)
    (streams : list Stream.t) (id : string) (params : Params) :
  catalogResults config channels streams id params
  = filter (searchTest params)
      (filter (genreTest params)
         (filter (allowListTest config)
            (filter (countryTest id)
               (filter (hasStream streams) channels)))).
Proof.
  rewrite catalogResults_keeps, !filter_twice.
  apply filter_ext. intros c. unfold keeps. now rewrite !andb_assoc.
Qed.

(** C3. A channel that no stream record points to is in no catalog:
    whatever the catalog id, the request parameters and the settings, it
    is not among the channels the handler keeps, and every meta object of
    the response is built from a channel of another id. *)
Theorem streamless_channel_not_listed (COUNTRIES : string -> Js.value)
    (config : Config) (logos : list Logo.t) (channels : list Channel.t)
    (streams : list Stream.t) (guides : list Guide.t) (id : string)
    (params : Params) (c : Channel.t) :
  (forall s, In s streams -> Stream.channel s <> Channel.id c) ->
  ~ In c (catalogResults config channels streams id params)
  /\ forall m,
       In m (catalogHandler COUNTRIES config logos channels streams guides
               id params) ->
       exists c', In c' channels /\ Channel.id c' <> Channel.id c
                  /\ m = toMeta COUNTRIES logos c'
                           (extractGuideDetails
                              (getGuideInfo guides (Channel.id c'))).
Proof.
  intros H.
  assert (N : forall c', Channel.id c' = Channel.id c ->
                         ~ In c' (catalogResults config channels streams id params)).
  { intros c' E Hin. rewrite catalogResults_keeps in Hin.
    apply filter_In in Hin. destruct Hin as [_ K].
    apply keeps_iff in K. destruct K as [(s & Hs & Es) _].
    apply (H s Hs). congruence. }
  split; [now apply N|].
  intros m Hm. unfold catalogHandler in Hm. apply in_map_iff in Hm.
  destruct Hm as (c' & <- & Hc'). exists c'. repeat split.
  - rewrite catalogResults_keeps in Hc'. now apply filter_In in Hc'.
  - intros E. now apply (N c' E).
Qed.

Lemma streamless_channel_not_listed_witness :
  ~ In channelDark
      (catalogResults (mkConfig [] []) [channelBBC; channelDark; channelCNN]
         [streamOrphan; streamBBC; streamCNN] "iptv-country-us"
         (mkParams Js.Undefined Js.Undefined)).
Proof.
  refine (proj1 (streamless_channel_not_listed sampleCountries
                   (mkConfig [] []) [] [channelBBC; channelDark; channelCNN]
                   [streamOrphan; streamBBC; streamCNN] [] "iptv-country-us"
                   (mkParams Js.Undefined Js.Undefined) channelDark _)).
  intros s [<-|[<-|[<-|[]]]]; discriminate.
Defined.

Example catalog_genre_allow_list :
  catalogResults (mkConfig [] ["general"])
    [channelBBC; channelDark; channelCNN]
    [streamOrphan; streamCNN; streamBBC] "iptv-all"
    (mkParams Js.Undefined Js.Undefined)
  = [channelBBC].
Proof. reflexivity. Qed.

Example catalog_keeps_upstream_order :
  map Meta.id
    (catalogHandler sampleCountries (mkConfig [] []) []
       [channelCNN; channelDark; channelBBC]
       [streamBBC; streamOrphan; streamCNN] [guideBBC] "iptv-all"
       (mkParams (Js.Str "news") (Js.Str "C")))
  = ["iptv-CNN.us"; "iptv-BBCOne.uk"].
Proof. reflexivity. Qed.

(** ** Country catalogs *)








Example country_catalog_us :
  catalogResults (mkConfig [] []) [channelBBC; channelDark; channelCNN]
    [streamOrphan; streamBBC; streamCNN] "iptv-country-us"
    (mkParams Js.Undefined Js.Undefined)
  = [channelCNN].
Proof. reflexivity. Qed.

(** ** The cache *)

Lemma cacheFresh_iff (st : Store) (now : Z) :
  cacheFresh st now = true
  <-> channels (cache st) <> None /\ (now - lastFetch st < TTL)%Z.
Proof.
  unfold cacheFresh. rewrite andb_true_iff, Z.ltb_lt.
  destruct (channels (cache st)); simpl; split; intros [H1 H2];
    split; try assumption; try discriminate; try reflexivity.
  now elim H1.
Qed.

Lemma getData_hit (st : Store) (now : Z) (net : Upstream) (now' : Z) :
  cacheFresh st now = true ->
  getData st now net now' = (Resolved (cache st), st, []).
Proof. intros H. unfold getData. now rewrite H. Qed.

Lemma getData_refresh (st : Store) (now : Z) (now' : Z)
    (c : list Channel.t) (s : list Stream.t) (g : list Guide.t) :
  cacheFresh st now = false ->
  getData st now (mkUpstream (Some c) (Some s) (Some g)) now'
  = (Resolved (mkCache (Some c) (Some s) (Some g)),
     mkStore (mkCache (Some c) (Some s) (Some g)) now',
     [IPTV_CHANNELS_URL; IPTV_STREAMS_URL; IPTV_GUIDES_URL]).
Proof. intros H. unfold getData. now rewrite H. Qed.

(** Whatever the upstream answers, a call leaves the store as it found it
    or replaces the three datasets and the timestamp at once. *)
Lemma getData_all_or_nothing (st : Store) (now : Z) (net : Upstream) (now' : Z) :
  storeAfter (getData st now net now') = st
  \/ exists c s g,
       net = mkUpstream (Some c) (Some s) (Some g)
       /\ storeAfter (getData st now net now')
          = mkStore (mkCache (Some c) (Some s) (Some g)) now'.
Proof.
  unfold getData. destruct (cacheFresh st now); [now left|].
  destruct net as [[c|] [s|] [g|]]; simpl; try (now left).
  right. now exists c, s, g.
Qed.

Lemma getData_Coherent (st : Store) (now : Z) (net : Upstream) (now' : Z) :
  Coherent st -> Coherent (storeAfter (getData st now net now')).
Proof.
  intros H. destruct (getData_all_or_nothing st now net now') as [E|E].
  - now rewrite E.
  - destruct E as (c & s & g & _ & ->). right. now exists c, s, g.
Qed.

(** A resolved call leaves its value in the store, with the channels set. *)
Lemma getData_resolved (st : Store) (now : Z) (net : Upstream) (now' : Z)
    (v : Cache) :
  settled (getData st now net now') = Resolved v ->
  cache (storeAfter (getData st now net now')) = v /\ channels v <> None.
Proof.
  unfold getData. destruct (cacheFresh st now) eqn:F.
  - simpl. intros [= <-]. split; [reflexivity|].
    now apply cacheFresh_iff in F.
  - destruct net as [[c|] [s|] [g|]]; simpl; try discriminate.
    intros [= <-]. split; [reflexivity | discriminate].
Qed.

(** C5. While a cached value exists and less than the TTL has elapsed
    since the last fetch, [getData] returns the cached value, leaves the
    store alone and issues no request.  Otherwise it requests channels,
    streams and guides, once each; when the three answers arrive it
    replaces the three datasets and the timestamp together and returns the
    new value; when a request is rejected the store is left as it was.
    So the store is never updated in part, a second call within the TTL
    of a resolved call returns the same value without a request, and a
    call after expiry runs one fetch cycle for the trio. *)
Theorem getData_contract (st : Store) (now : Z) (net : Upstream) (now' : Z) :
  (channels (cache st) <> None -> (now - lastFetch st < TTL)%Z ->
   getData st now net now' = (Resolved (cache st), st, []))
  /\ (channels (cache st) = None \/ (TTL <= now - lastFetch st)%Z ->
      requests (getData st now net now')
      = [IPTV_CHANNELS_URL; IPTV_STREAMS_URL; IPTV_GUIDES_URL]
      /\ (forall c s g,
            net = mkUpstream (Some c) (Some s) (Some g) ->
            getData st now net now'
            = (Resolved (mkCache (Some c) (Some s) (Some g)),
               mkStore (mkCache (Some c) (Some s) (Some g)) now',
               [IPTV_CHANNELS_URL; IPTV_STREAMS_URL; IPTV_GUIDES_URL]))
      /\ (getChannels net = None \/ getStreams net = None
          \/ getGuides net = None ->
          settled (getData st now net now') = Rejected
          /\ storeAfter (getData st now net now') = st))
  /\ (storeAfter (getData st now net now') = st
      \/ exists c s g,
           net = mkUpstream (Some c) (Some s) (Some g)
           /\ storeAfter (getData st now net now')
              = mkStore (mkCache (Some c) (Some s) (Some g)) now')
  /\ (Coherent st -> Coherent (storeAfter (getData st now net now')))
  /\ (forall v t net2 t',
        settled (getData st now net now') = Resolved v ->
        (t - lastFetch (storeAfter (getData st now net now')) < TTL)%Z ->
        getData (storeAfter (getData st now net now')) t net2 t'
        = (Resolved v, storeAfter (getData st now net now'), [])).
Proof.
  split; [|split; [|split; [|split]]].
  - intros H1 H2. apply getData_hit. now apply cacheFresh_iff.
  - intros H.
    assert (F : cacheFresh st now = false).
    { destruct (cacheFresh st now) eqn:F; [|reflexivity].
      apply cacheFresh_iff in F. destruct F as [F1 F2].
      destruct H as [H|H]; [contradiction | lia]. }
    split; [|split].
    + unfold getData. rewrite F.
      now destruct net as [[c|] [s|] [g|]].
    + intros c s g ->. now apply getData_refresh.
    + intros N. unfold getData. rewrite F.
      destruct net as [[c|] [s|] [g|]]; simpl in *; try (split; reflexivity).
      destruct N as [N|[N|N]]; discriminate.
  - apply getData_all_or_nothing.
  - apply getData_Coherent.
  - intros v t net2 t' R W.
    destruct (getData_resolved _ _ _ _ _ R) as [E N].
    rewrite getData_hit; [now rewrite E|].
    apply cacheFresh_iff. split; [now rewrite E | assumption].
Qed.

Lemma getData_contract_witness :
  getData initialStore 1000 sampleUpstream 1250
  = (Resolved (mkCache (getChannels sampleUpstream) (getStreams sampleUpstream)
                 (getGuides sampleUpstream)),
     mkStore (mkCache (getChannels sampleUpstream) (getStreams sampleUpstream)
                (getGuides sampleUpstream)) 1250,
     [IPTV_CHANNELS_URL; IPTV_STREAMS_URL; IPTV_GUIDES_URL])
  /\ getData (storeAfter (getData initialStore 1000 sampleUpstream 1250))
       3601249 laterUpstream 3601300
     = (Resolved (mkCache (getChannels sampleUpstream)
                    (getStreams sampleUpstream) (getGuides sampleUpstream)),
        storeAfter (getData initialStore 1000 sampleUpstream 1250), []).
Proof.
  pose proof (getData_contract initialStore 1000 sampleUpstream 1250)
    as (_ & H2 & _ & _ & H5).
  split.
  - destruct (H2 (or_introl eq_refl)) as (_ & H & _).
    apply (H [channelBBC; channelCNN] [streamBBC; streamCNN] [guideBBC]).
    reflexivity.
  - apply H5; [reflexivity | vm_compute; reflexivity].
Defined.

Example getData_expired_refetches :
  getData (mkStore (mkCache (Some []) (Some []) (Some [])) 1250)
          3601250 laterUpstream 3601400
  = (Resolved (mkCache (Some [channelCNN]) (Some [streamCNN]) (Some [])),
     mkStore (mkCache (Some [channelCNN]) (Some [streamCNN]) (Some [])) 3601400,
     [IPTV_CHANNELS_URL; IPTV_STREAMS_URL; IPTV_GUIDES_URL]).
Proof. reflexivity. Qed.

Example getData_rejected_keeps_store :
  getData (mkStore (mkCache (Some []) (Some []) (Some [])) 1250)
          3601250 brokenUpstream 3601400
  = (Rejected, mkStore (mkCache (Some []) (Some []) (Some [])) 1250,
     [IPTV_CHANNELS_URL; IPTV_STREAMS_URL; IPTV_GUIDES_URL]).
Proof. reflexivity. Qed.

(** * Further properties of the code *)

(** ** The cache of logos *)

(** X1. [fetchLogos] serves the cached list, without a request and
    without touching its store, while a list is cached and less than 24
    hours have passed since the last fetch; otherwise it issues the one
    logos request, and then either stores the answer with the new
    timestamp and returns it, or, when the request is rejected, leaves the
    store as it was. *)
Theorem fetchLogos_contract (st : LogoStore) (now : Z)
    (res : option (list Logo.t)) (now' : Z) :
  (forall cached, logosCache st = Some cached ->
     (now - logosLastFetch st < LOGOS_TTL)%Z ->
     fetchLogos st now res now' = (ResolvedLogos cached, st, []))
  /\ (logosCache st = None \/ (LOGOS_TTL <= now - logosLastFetch st)%Z ->
      (forall data, res = Some data ->
         fetchLogos st now res now'
         = (ResolvedLogos data, mkLogoStore (Some data) now', [IPTV_LOGOS_URL]))
      /\ (res = None ->
          fetchLogos st now res now' = (RejectedLogos, st, [IPTV_LOGOS_URL]))).
Proof.
  split.
  - intros cached E W. unfold fetchLogos. rewrite E.
    apply Z.ltb_lt in W. now rewrite W.
  - intros H.
    assert (R : fetchLogos st now res now'
                = match res with
                  | Some data => (ResolvedLogos data,
                                  mkLogoStore (Some data) now', [IPTV_LOGOS_URL])
                  | None => (RejectedLogos, st, [IPTV_LOGOS_URL])
                  end).
    { unfold fetchLogos. destruct (logosCache st) as [cached|]; [|reflexivity].
      destruct H as [H|H]; [discriminate|].
      apply Z.ltb_ge in H. now rewrite H. }
    split; [intros data ->|intros ->]; exact R.
Qed.

Lemma fetchLogos_contract_witness :
  fetchLogos (mkLogoStore (Some [logoBBCsmall]) 1000) 86400999
             (Some [logoBBCwide]) 86401500
  = (ResolvedLogos [logoBBCsmall], mkLogoStore (Some [logoBBCsmall]) 1000, [])
  /\ fetchLogos (mkLogoStore (Some [logoBBCsmall]) 1000) 86401000
                (Some [logoBBCwide]) 86401500
     = (ResolvedLogos [logoBBCwide], mkLogoStore (Some [logoBBCwide]) 86401500,
        [IPTV_LOGOS_URL])
  /\ fetchLogos initialLogoStore 5 None 9
     = (RejectedLogos, initialLogoStore, [IPTV_LOGOS_URL]).
Proof.
  split; [|split].
  - apply (proj1 (fetchLogos_contract (mkLogoStore (Some [logoBBCsmall]) 1000)
                    86400999 (Some [logoBBCwide]) 86401500));
      [reflexivity | vm_compute; reflexivity].
  - apply (proj2 (fetchLogos_contract (mkLogoStore (Some [logoBBCsmall]) 1000)
                    86401000 (Some [logoBBCwide]) 86401500));
      [right; vm_compute; discriminate | reflexivity].
  - apply (proj2 (fetchLogos_contract initialLogoStore 5 None 9));
      [left; reflexivity | reflexivity].
Defined.

(** ** Calls of [getData] in sequence *)

(** X2. However many calls of [getData] run within the TTL of the last
    fetch, all of them return the cached value, none issues a request and
    the store stays as it was. *)
Theorem getDataRun_within_ttl (st : Store) (calls : list Call) :
  channels (cache st) <> None ->
  Forall (fun c => (callAt c - lastFetch st < TTL)%Z) calls ->
  getDataRun st calls
  = (map (fun _ => (Resolved (cache st), [])) calls, st).
Proof.
  intros C. induction calls as [|c rest IH]; intros F; [reflexivity|].
  inversion F as [|? ? W F']; subst. cbn [getDataRun map].
  rewrite getData_hit by (apply cacheFresh_iff; now split).
  now rewrite (IH F').
Qed.

Lemma getDataRun_within_ttl_witness :
  getDataRun (mkStore (mkCache (Some [channelCNN]) (Some [streamCNN]) (Some []))
                1250)
    [mkCall 2000 sampleUpstream 2100; mkCall 3601249 brokenUpstream 3601300]
  = ([(Resolved (mkCache (Some [channelCNN]) (Some [streamCNN]) (Some [])), []);
      (Resolved (mkCache (Some [channelCNN]) (Some [streamCNN]) (Some [])), [])],
     mkStore (mkCache (Some [channelCNN]) (Some [streamCNN]) (Some [])) 1250).
Proof.
  apply (getDataRun_within_ttl
           (mkStore (mkCache (Some [channelCNN]) (Some [streamCNN]) (Some []))
              1250)
           [mkCall 2000 sampleUpstream 2100;
            mkCall 3601249 brokenUpstream 3601300]).
  - discriminate.
  - repeat constructor; vm_compute; reflexivity.
Defined.

(** ** Ties between logos, and posters that are never empty *)

(** After sorting by descending width, the first element is the earliest
    of the widest ones. *)
Lemma sort_first_widest (pre : list Logo.t) (l : Logo.t) (post : list Logo.t) :
  (forall y, In y pre -> (Logo.width y < Logo.width l)%Z) ->
  (forall y, In y post -> (Logo.width y <= Logo.width l)%Z) ->
  exists rest, Js.sort byWidthDesc (pre ++ l :: post)%list = l :: rest.
Proof.
  induction pre as [|x pre IH]; intros Hpre Hpost.
  - cbn [app Js.sort].
    pose proof (sort_widest post) as W.
    destruct (Js.sort byWidthDesc post) as [|h t]; cbn [Js.insert].
    + now exists [].
    + destruct W as [Hin _]. specialize (Hpost h Hin).
      unfold byWidthDesc at 1.
      destruct (Z.leb_spec (Logo.width h - Logo.width l) 0); [|lia].
      now exists (h :: t).
  - cbn [app Js.sort].
    destruct IH as [rest ->].
    + intros y Hy. apply Hpre. now right.
    + assumption.
    + cbn [Js.insert]. unfold byWidthDesc at 1.
      specialize (Hpre x (or_introl eq_refl)).
      destruct (Z.leb_spec (Logo.width l - Logo.width x) 0); [lia|].
      now exists (Js.insert byWidthDesc x rest).
Qed.

Lemma filter_app_cons {A : Type} (f : A -> bool) (pre : list A) (x : A)
    (post : list A) :
  f x = true ->
  filter f (pre ++ x :: post)%list = (filter f pre ++ x :: filter f post)%list.
Proof.
  intros H. rewrite filter_app. cbn [filter]. now rewrite H.
Qed.

(** X3. When no guide image is present, the poster is the url of the
    widest qualifying logo, and among qualifying logos of that same width
    the one that comes first in the upstream list wins: every qualifying
    logo before it is strictly narrower, every one after it at most as
    wide. *)
Theorem getPoster_first_widest_logo (pre : list Logo.t) (l : Logo.t)
    (post : list Logo.t) (channel : Channel.t)
    (guideDetails : option GuideDetails.t) :
  Missing (guideImage guideDetails) ->
  Qualifies channel l ->
  (forall y, In y pre -> Qualifies channel y ->
             (Logo.width y < Logo.width l)%Z) ->
  (forall y, In y post -> Qualifies channel y ->
             (Logo.width y <= Logo.width l)%Z) ->
  getPosterAt (pre ++ l :: post)%list channel guideDetails
  = (AtWidestLogo, Logo.url l).
Proof.
  intros G Q Hpre Hpost. unfold getPosterAt.
  apply falsy_Missing in G. rewrite G.
  rewrite filter_app_cons by (now apply isCandidate_iff).
  destruct (sort_first_widest (filter (isCandidate channel) pre) l
              (filter (isCandidate channel) post)) as [rest ->].
  - intros y Hy. apply filter_In in Hy. destruct Hy as [Hy Qy].
    apply Hpre; [assumption | now apply isCandidate_iff].
  - intros y Hy. apply filter_In in Hy. destruct Hy as [Hy Qy].
    apply Hpost; [assumption | now apply isCandidate_iff].
  - reflexivity.
Qed.

Lemma getPoster_first_widest_logo_witness :
  getPosterAt [logoCNNwide; logoBBCsmall; logoBBCsvg; logoBBCwide;
               logoBBCwideToo] channelBBC None
  = (AtWidestLogo, "https://img.example/bbc-1024.png").
Proof.
  apply (getPoster_first_widest_logo [logoCNNwide; logoBBCsmall; logoBBCsvg]
           logoBBCwide [logoBBCwideToo] channelBBC None).
  - intros s [E _]. discriminate E.
  - repeat split.
    + exists ["horizontal"]. split; [reflexivity | now left].
    + discriminate.
  - intros y [<-|[<-|[<-|[]]]] (C & _ & F).
    + discriminate C.
    + vm_compute. reflexivity.
    + now elim (F "SVG").
  - intros y [<-|[]] _. vm_compute. discriminate.
Defined.

(** X4. When every logo record has a non-empty url, the poster that
    [getPoster] returns is never the empty string. *)
Theorem getPoster_not_empty (logos : list Logo.t) (channel : Channel.t)
    (guideDetails : option GuideDetails.t) :
  (forall l, In l logos -> Logo.url l <> "") ->
  getPoster logos channel guideDetails <> "".
Proof.
  intros U. unfold getPoster, getPosterAt.
  destruct (Js.truthy (guideImage guideDetails)) eqn:G; simpl.
  - apply truthy_Present in G. now destruct G.
  - pose proof (sort_widest (filter (isCandidate channel) logos)) as W.
    destruct (Js.sort byWidthDesc (filter (isCandidate channel) logos))
      as [|first rest]; simpl.
    + destruct (Js.truthy (Channel.logo channel)) eqn:L; simpl.
      * destruct (Js.endsWith (Js.toString (Channel.logo channel)) ".svg");
          simpl.
        -- destruct (Js.truthy (Channel.id channel)); simpl; discriminate.
        -- apply truthy_Present in L. now destruct L.
      * destruct (Js.truthy (Channel.id channel)); simpl; discriminate.
    + destruct W as [Hin _]. apply filter_In in Hin. now apply U.
Qed.

Lemma getPoster_not_empty_witness :
  getPoster [logoBBCsmall; logoBBCwide] channelBBC None <> "".
Proof.
  apply (getPoster_not_empty [logoBBCsmall; logoBBCwide] channelBBC None).
  intros l [<-|[<-|[]]]; discriminate.
Defined.

(** ** Guide details on their way to the meta object *)

(** X5. The details that [extractGuideDetails] builds never hold an empty
    title: [nowPlaying] and [next] are non-empty strings, and
    [currentShowImage] is either [null] or a non-empty string; in
    particular it is never [undefined] or the empty string. *)
Theorem extractGuideDetails_never_empty (g : Guide.t) :
  exists d,
    extractGuideDetails (Some g) = Some d
    /\ GuideDetails.nowPlaying d <> ""
    /\ GuideDetails.next d <> ""
    /\ (GuideDetails.currentShowImage d = Js.Null
        \/ exists s, GuideDetails.currentShowImage d = Js.Str s /\ s <> "").
Proof.
  eexists. split; [reflexivity|]. simpl. repeat split.
  - destruct (Guide.now g) as [| |s]; simpl; try discriminate.
    destruct (String.eqb_spec s ""); [discriminate | assumption].
  - destruct (Guide.next g) as [| |s]; simpl; try discriminate.
    destruct (String.eqb_spec s ""); [discriminate | assumption].
  - unfold Js.or. destruct (Js.truthy (Guide.image g)) eqn:T.
    + right. apply truthy_iff in T. exact T.
    + now left.
Qed.

(** X6. In the meta handler the guide decides the artwork: when the
    requested channel exists and the first guide entry of that channel
    carries a non-empty image, the meta object has that image as poster,
    background and logo, whatever the logos and the channel's own logo. *)
Theorem metaHandler_guide_image (COUNTRIES : string -> Js.value)
    (logos : list Logo.t) (channels : list Channel.t)
    (gpre : list Guide.t) (g : Guide.t) (gpost : list Guide.t)
    (channelId img : string) :
  (exists c, In c channels /\ Channel.id c = Js.Str channelId) ->
  Guide.channel g = Js.Str channelId ->
  (forall g', In g' gpre -> Guide.channel g' <> Js.Str channelId) ->
  Present (Guide.image g) img ->
  exists m,
    metaHandler COUNTRIES logos channels (gpre ++ g :: gpost)%list
                ("iptv-" ++ channelId) = Some m
    /\ Meta.poster m = img /\ Meta.background m = img /\ Meta.logo m = img.
Proof.
  intros (c & Hc & Ec) Eg Hpre [Ei Ni].
  rewrite metaHandler_any_id, replace_prefix.
  destruct (find _ channels) as [c'|] eqn:F.
  - eexists. split; [reflexivity|].
    assert (P : getPoster logos c'
                  (extractGuideDetails
                     (getGuideInfo (gpre ++ g :: gpost)%list
                        (Js.Str channelId))) = img).
    { unfold getGuideInfo. rewrite find_first.
      - unfold getPoster, getPosterAt. simpl. unfold Js.or.
        assert (T : Js.truthy (Guide.image g) = true)
          by (apply truthy_iff; now exists img).
        rewrite T, T. now rewrite Ei.
      - now apply strictEq_iff.
      - intros g' Hg'. now apply strictEq_false_iff, Hpre. }
    unfold toMeta. simpl. now rewrite P.
  - exfalso. apply (find_none _ _ F) in Hc.
    apply strictEq_false_iff in Hc. contradiction.
Qed.

Lemma metaHandler_guide_image_witness :
  exists m,
    metaHandler sampleCountries [logoBBCsmall; logoBBCwide]
      [channelCNN; channelBBC] [guideCNN; guideBBC; guideWithEmptyNow]
      "iptv-BBCOne.uk"
    = Some m
    /\ Meta.poster m = "https://img.example/weather.jpg"
    /\ Meta.background m = "https://img.example/weather.jpg"
    /\ Meta.logo m = "https://img.example/weather.jpg".
Proof.
  apply (metaHandler_guide_image sampleCountries [logoBBCsmall; logoBBCwide]
           [channelCNN; channelBBC] [guideCNN] guideBBC [guideWithEmptyNow]
           "BBCOne.uk").
  - exists channelBBC. split; [right; now left | reflexivity].
  - reflexivity.
  - intros g' [<-|[]]. discriminate.
  - split; [reflexivity | discriminate].
Defined.

(** ** The catalog: leniency, narrowing and case *)

Lemma keeps_no_country (config : Config) (streams : list Stream.t)
    (id : string) (params : Params) (c : Channel.t) :
  Js.startsWith id "iptv-country-" = false ->
  keeps config streams id params c = keeps config streams "iptv-all" params c.
Proof.
  intros H. unfold keeps, countryTest. now rewrite H.
Qed.

(** X7. The catalog handler rejects nothing: a catalog id that does not
    start with ["iptv-country-"], known or not, selects what ["iptv-all"]
    selects, and a [genre] or [search] parameter that is the empty string
    filters nothing, as if it were absent. *)
Theorem catalog_lenient (config : Config) (channels : list Channel.t)
    (streams : list Stream.t) (id : string) (params : Params) :
  (Js.startsWith id "iptv-country-" = false ->
   catalogResults config channels streams id params
   = catalogResults config channels streams "iptv-all" params)
  /\ catalogResults config channels streams id
       (mkParams (Js.Str "") (search params))
     = catalogResults config channels streams id
         (mkParams Js.Undefined (search params))
  /\ catalogResults config channels streams id
       (mkParams (genre params) (Js.Str ""))
     = catalogResults config channels streams id
         (mkParams (genre params) Js.Undefined).
Proof.
  split; [|split; reflexivity].
  intros H. rewrite !catalogResults_keeps. apply filter_ext.
  intros c. now apply keeps_no_country.
Qed.

Lemma catalog_lenient_witness :
  catalogResults (mkConfig [] []) [channelBBC; channelDark; channelCNN]
    [streamOrphan; streamBBC; streamCNN] "no-such-catalog"
    (mkParams Js.Undefined Js.Undefined)
  = catalogResults (mkConfig [] []) [channelBBC; channelDark; channelCNN]
      [streamOrphan; streamBBC; streamCNN] "iptv-all"
      (mkParams Js.Undefined Js.Undefined).
Proof.
  apply (proj1 (catalog_lenient (mkConfig [] [])
                  [channelBBC; channelDark; channelCNN]
                  [streamOrphan; streamBBC; streamCNN] "no-such-catalog"
                  (mkParams Js.Undefined Js.Undefined))).
  reflexivity.
Defined.





Lemma filter_narrower_Subsequence {A : Type} (f g : A -> bool) (l : list A) :
  (forall x, f x = true -> g x = true) ->
  Subsequence (filter f l) (filter g l).
Proof.
  intros H. induction l as [|x l IH]; simpl; [constructor|].
  destruct (f x) eqn:F.
  - rewrite (H x F). now constructor.
  - destruct (g x); [now constructor | assumption].
Qed.

(** X9. Filters only narrow: whatever the catalog id and the request
    parameters, the channels the handler keeps are, in the same order,
    among those it keeps for ["iptv-all"] without parameters under the
    same settings; and those are channels that have a stream. *)
Theorem catalog_narrows_all (config : Config) (channels : list Channel.t)
    (streams : list Stream.t) (id : string) (params : Params) :
  Subsequence
    (catalogResults config channels streams id params)
    (catalogResults config channels streams "iptv-all"
       (mkParams Js.Undefined Js.Undefined))
  /\ Subsequence
       (catalogResults config channels streams "iptv-all"
          (mkParams Js.Undefined Js.Undefined))
       (filter (hasStream streams) channels).
Proof.
  rewrite !catalogResults_keeps. split.
  - apply filter_narrower_Subsequence. intros c K.
    unfold keeps in *. rewrite !andb_true_iff in K.
    destruct K as [[[[K1 _] K3] _] _].
    rewrite K1, K3. reflexivity.
  - apply filter_narrower_Subsequence. intros c K.
    unfold keeps in K. rewrite !andb_true_iff in K. tauto.
Qed.

(** ** From a catalog entry to its stream and its meta object *)

Lemma find_exists {A : Type} (f : A -> bool) (l : list A) (x : A) :
  In x l -> f x = true -> exists y, find f l = Some y.
Proof.
  intros Hin Hx. destruct (find f l) as [y|] eqn:F; [now exists y|].
  apply (find_none _ _ F) in Hin. congruence.
Qed.

Lemma find_unique {A : Type} (key : A -> Js.value) (l : list A) (x : A) :
  NoDup (map key l) -> In x l ->
  find (fun y => Js.strictEq (key y) (key x)) l = Some x.
Proof.
  induction l as [|a l IH]; intros N Hin; [destruct Hin|].
  inversion N as [|? ? Na N']; subst. cbn [find].
  destruct Hin as [->|Hin].
  - now rewrite (proj2 (strictEq_iff _ _) eq_refl).
  - destruct (Js.strictEq (key a) (key x)) eqn:E.
    + apply strictEq_iff in E. elim Na. rewrite E. now apply in_map.
    + now apply IH.
Qed.

Lemma catalogResults_In (config : Config) (channels : list Channel.t)
    (streams : list Stream.t) (id : string) (params : Params) (c : Channel.t) :
  In c (catalogResults config channels streams id params) ->
  In c channels /\ HasStream streams c.
Proof.
  rewrite catalogResults_keeps. intros H. apply filter_In in H.
  destruct H as [Hin K]. split; [assumption|].
  apply keeps_iff in K. now destruct K.
Qed.

(** X10. Every catalog entry can be played: for a channel that the
    catalog handler lists and whose id is a string, the stream handler,
    given the id of the channel's meta object, answers with exactly one
    stream, titled ["Live"], whose url is that of a stream record of the
    channel. *)
Theorem catalog_entry_has_stream (COUNTRIES : string -> Js.value)
    (config : Config) (logos : list Logo.t) (channels : list Channel.t)
    (streams : list Stream.t) (guides : list Guide.t) (id : string)
    (params : Params) (c : Channel.t) (channelId : string) :
  In c (catalogResults config channels streams id params) ->
  Channel.id c = Js.Str channelId ->
  exists s,
    In s streams /\ Stream.channel s = Js.Str channelId
    /\ streamHandler streams
         (Meta.id (toMeta COUNTRIES logos c
                     (extractGuideDetails (getGuideInfo guides (Channel.id c)))))
       = [mkStreamItem (Stream.url s) "Live"].
Proof.
  intros Hc E. apply catalogResults_In in Hc.
  destruct Hc as [_ (s0 & Hs0 & Es0)].
  cbn [toMeta Meta.id]. unfold prefixed. rewrite E. cbn [Js.toString].
  rewrite streamHandler_any_id, replace_prefix.
  destruct (find_exists (fun s => Js.strictEq (Stream.channel s)
                                    (Js.Str channelId)) streams s0 Hs0)
    as [s F].
  - apply strictEq_iff. congruence.
  - rewrite F. apply find_some in F. destruct F as [Hs Es].
    apply strictEq_iff in Es. now exists s.
Qed.

Lemma catalog_entry_has_stream_witness :
  exists s,
    In s [streamOrphan; streamBBC; streamCNN; streamBBCalt]
    /\ Stream.channel s = Js.Str "BBCOne.uk"
    /\ streamHandler [streamOrphan; streamBBC; streamCNN; streamBBCalt]
         (Meta.id (toMeta sampleCountries [] channelBBC
                     (extractGuideDetails
                        (getGuideInfo [guideBBC] (Channel.id channelBBC)))))
       = [mkStreamItem (Stream.url s) "Live"].
Proof.
  apply (catalog_entry_has_stream sampleCountries (mkConfig [] []) []
           [channelBBC; channelDark; channelCNN]
           [streamOrphan; streamBBC; streamCNN; streamBBCalt] [guideBBC]
           "iptv-all" (mkParams Js.Undefined Js.Undefined) channelBBC
           "BBCOne.uk").
  - simpl. now left.
  - reflexivity.
Defined.

(** X11. When the channel ids of the cached list are pairwise distinct,
    the meta handler, given the id of a catalog entry whose channel id is
    a string, answers with that very meta object. *)
Theorem catalog_entry_meta_agrees (COUNTRIES : string -> Js.value)
    (config : Config) (logos : list Logo.t) (channels : list Channel.t)
    (streams : list Stream.t) (guides : list Guide.t) (id : string)
    (params : Params) (c : Channel.t) (channelId : string) :
  NoDup (map Channel.id channels) ->
  In c (catalogResults config channels streams id params) ->
  Channel.id c = Js.Str channelId ->
  In (toMeta COUNTRIES logos c
        (extractGuideDetails (getGuideInfo guides (Channel.id c))))
     (catalogHandler COUNTRIES config logos channels streams guides id params)
  /\ metaHandler COUNTRIES logos channels guides
       (Meta.id (toMeta COUNTRIES logos c
                   (extractGuideDetails (getGuideInfo guides (Channel.id c)))))
     = Some (toMeta COUNTRIES logos c
               (extractGuideDetails (getGuideInfo guides (Channel.id c)))).
Proof.
  intros N Hc E. split.
  - unfold catalogHandler. apply in_map_iff. exists c. now split.
  - apply catalogResults_In in Hc. destruct Hc as [Hin _].
    cbn [toMeta Meta.id]. unfold prefixed. rewrite E. cbn [Js.toString].
    rewrite metaHandler_any_id, replace_prefix.
    rewrite <- E. now rewrite (find_unique Channel.id channels c N Hin).
Qed.

Lemma catalog_entry_meta_agrees_witness :
  metaHandler sampleCountries [logoBBCwide]
    [channelBBC; channelDark; channelCNN] [guideBBC]
    (Meta.id (toMeta sampleCountries [logoBBCwide] channelCNN
                (extractGuideDetails
                   (getGuideInfo [guideBBC] (Channel.id channelCNN)))))
  = Some (toMeta sampleCountries [logoBBCwide] channelCNN
            (extractGuideDetails
               (getGuideInfo [guideBBC] (Channel.id channelCNN)))).
Proof.
  apply (catalog_entry_meta_agrees sampleCountries (mkConfig [] [])
           [logoBBCwide] [channelBBC; channelDark; channelCNN]
           [streamOrphan; streamBBC; streamCNN] [guideBBC] "iptv-country-us"
           (mkParams Js.Undefined Js.Undefined) channelCNN "CNN.us").
  - repeat constructor; simpl; intuition discriminate.
  - simpl. now left.
  - reflexivity.
Defined.

Lemma Subsequence_In {A : Type} (sub l : list A) (x : A) :
  Subsequence sub l -> In x sub -> In x l.
Proof.
  induction 1 as [|y sub l S IH|y sub l S IH]; intros H.
  - destruct H.
  - right. now apply IH.
  - destruct H as [->|H]; [now left | right; now apply IH].
Qed.

Lemma Subsequence_map {A B : Type} (f : A -> B) (sub l : list A) :
  Subsequence sub l -> Subsequence (map f sub) (map f l).
Proof. induction 1; simpl; now constructor. Qed.

Lemma Subsequence_NoDup {A : Type} (sub l : list A) :
  Subsequence sub l -> NoDup l -> NoDup sub.
Proof.
  induction 1 as [|y sub l S IH|y sub l S IH]; intros N.
  - constructor.
  - inversion N; subst. now apply IH.
  - inversion N as [|? ? Ny N']; subst. constructor; [|now apply IH].
    intros H. apply Ny. now apply (Subsequence_In sub l).
Qed.

Lemma prefixed_injective (a b : Js.value) (s t : string) :
  a = Js.Str s -> b = Js.Str t -> prefixed a = prefixed b -> a = b.
Proof.
  intros -> -> H. unfold prefixed in H. simpl in H.
  injection H as ->. reflexivity.
Qed.

Lemma NoDup_map_prefixed (ids : list Js.value) :
  Forall (fun v => exists s, v = Js.Str s) ids ->
  NoDup ids -> NoDup (map prefixed ids).
Proof.
  induction ids as [|a ids IH]; intros F N; simpl; [constructor|].
  inversion F as [|? ? [s Ea] F']; subst.
  inversion N as [|? ? Na N']; subst.
  constructor; [|now apply IH].
  intros H. apply in_map_iff in H. destruct H as (b & Eb & Hb).
  apply Na. rewrite Forall_forall in F'. destruct (F' b Hb) as [t Et].
  now rewrite <- (prefixed_injective b (Js.Str s) t s Et eq_refl Eb).
Qed.

(** X12. When the channel ids of the cached list are strings and pairwise
    distinct, the meta objects of a catalog response have pairwise
    distinct ids. *)
Theorem catalog_ids_distinct (COUNTRIES : string -> Js.value)
    (config : Config) (logos : list Logo.t) (channels : list Channel.t)
    (streams : list Stream.t) (guides : list Guide.t) (id : string)
    (params : Params) :
  Forall (fun c => exists s, Channel.id c = Js.Str s) channels ->
  NoDup (map Channel.id channels) ->
  NoDup (map Meta.id
           (catalogHandler COUNTRIES config logos channels streams guides
              id params)).
Proof.
  intros F N. unfold catalogHandler. rewrite map_map. cbn [metaOf toMeta Meta.id].
  rewrite <- (map_map Channel.id prefixed).
  assert (S : Subsequence
                (map Channel.id (catalogResults config channels streams id params))
                (map Channel.id channels)).
  { apply Subsequence_map. rewrite catalogResults_keeps.
    apply filter_Subsequence. }
  apply NoDup_map_prefixed.
  - apply Forall_forall. intros v Hv.
    apply (Subsequence_In _ _ _ S) in Hv. apply in_map_iff in Hv.
    destruct Hv as (c & <- & Hc). rewrite Forall_forall in F. now apply F.
  - now apply (Subsequence_NoDup _ _ S).
Qed.

Lemma catalog_ids_distinct_witness :
  NoDup (map Meta.id
           (catalogHandler sampleCountries (mkConfig [] []) [logoBBCwide]
              [channelBBC; channelDark; channelCNN]
              [streamOrphan; streamBBC; streamCNN] [guideBBC] "iptv-all"
              (mkParams Js.Undefined Js.Undefined))).
Proof.
  apply (catalog_ids_distinct sampleCountries (mkConfig [] []) [logoBBCwide]
           [channelBBC; channelDark; channelCNN]
           [streamOrphan; streamBBC; streamCNN] [guideBBC] "iptv-all"
           (mkParams Js.Undefined Js.Undefined)).
  - repeat constructor; eexists; reflexivity.
  - repeat constructor; simpl; intuition discriminate.
Defined.

(** ** Ids without the marker *)

Lemma replace_absent (s pat rep : string) :
  Js.includes s pat = false -> Js.replace s pat rep = s.
Proof.
  induction s as [|c s IH]; rewrite includes_unfold, replace_unfold; intros H;
    apply orb_false_iff in H; destruct H as [H1 H2]; rewrite H1.
  - reflexivity.
  - now rewrite (IH H2).
Qed.

(** X13. The handlers do not insist on the marker: an id in which
    ["iptv-"] does not occur is looked up as it is, so the meta and the
    stream handler answer for it what they answer for the prefixed id. *)
Theorem unprefixed_id_accepted (COUNTRIES : string -> Js.value)
    (logos : list Logo.t) (channels : list Channel.t) (streams : list Stream.t)
    (guides : list Guide.t) (id : string) :
  Js.includes id "iptv-" = false ->
  metaHandler COUNTRIES logos channels guides id
  = metaHandler COUNTRIES logos channels guides ("iptv-" ++ id)
  /\ streamHandler streams id = streamHandler streams ("iptv-" ++ id).
Proof.
  intros H.
  rewrite !metaHandler_any_id, !streamHandler_any_id, replace_prefix.
  now rewrite (replace_absent _ _ _ H).
Qed.

Lemma unprefixed_id_accepted_witness :
  streamHandler [streamOrphan; streamBBC; streamCNN] "CNN.us"
  = streamHandler [streamOrphan; streamBBC; streamCNN] "iptv-CNN.us".
Proof.
  apply (proj2 (unprefixed_id_accepted sampleCountries []
                  [channelBBC; channelCNN] [streamOrphan; streamBBC; streamCNN]
                  [guideBBC] "CNN.us" eq_refl)).
Defined.

(** ** Saving the configuration *)

Lemma NoComma_cons (c : ascii) (s : string) :
  NoComma (String c s) <-> c <> ","%char /\ NoComma s.
Proof.
  unfold NoComma. rewrite includes_unfold. cbn [prefix].
  destruct (ascii_dec "," c) as [<-|N]; simpl.
  - destruct s; split; try discriminate; intros [H _]; now elim H.
  - split; [intros H; split; [congruence | assumption] | now intros [_ H]].
Qed.

Lemma NoComma_empty : NoComma "".
Proof. reflexivity. Qed.

Lemma split_not_nil (sep : ascii) (s : string) : JsArray.split sep s <> [].
Proof.
  destruct s as [|c s]; simpl; [discriminate|].
  destruct (Ascii.eqb c sep); [discriminate|].
  destruct (JsArray.split sep s); discriminate.
Qed.

(** A piece that [split] returns holds no separator. *)
Lemma split_pieces (s x : string) :
  In x (JsArray.split "," s) -> NoComma x.
Proof.
  revert x. induction s as [|c s IH]; intros x; cbn [JsArray.split].
  - intros [<-|[]]. apply NoComma_empty.
  - destruct (Ascii.eqb_spec c ","%char) as [->|N].
    + intros [<-|H]; [apply NoComma_empty | now apply IH].
    + destruct (JsArray.split "," s) as [|w ws].
      * intros [<-|[]]. apply NoComma_cons. split; [assumption | reflexivity].
      * intros [<-|H]; [|apply IH; now right].
        apply NoComma_cons. split; [assumption | apply IH; now left].
Qed.

Lemma split_plain (x : string) : NoComma x -> JsArray.split "," x = [x].
Proof.
  induction x as [|c x IH]; intros H; [reflexivity|].
  apply NoComma_cons in H. destruct H as [N H]. cbn [JsArray.split].
  apply Ascii.eqb_neq in N. rewrite N. now rewrite (IH H).
Qed.

Lemma split_piece_then (x rest : string) :
  NoComma x ->
  JsArray.split "," (x ++ String "," rest) = x :: JsArray.split "," rest.
Proof.
  induction x as [|c x IH]; intros H.
  - reflexivity.
  - apply NoComma_cons in H. destruct H as [N H].
    cbn [append JsArray.split]. apply Ascii.eqb_neq in N. rewrite N.
    now rewrite (IH H).
Qed.

Lemma join_cons2 (sep x y : string) (l : list string) :
  Js.join sep (x :: y :: l) = x ++ sep ++ Js.join sep (y :: l).
Proof. reflexivity. Qed.

(** What the page writes into the form, the handler reads back. *)
Lemma parseList_join (xs : list string) :
  Forall Plain xs -> parseList (Js.Str (Js.join "," xs)) = xs.
Proof.
  intros F. unfold parseList.
  assert (E : Js.orDefault (Js.Str (Js.join "," xs)) "" = Js.join "," xs).
  { simpl. now destruct (String.eqb_spec (Js.join "," xs) ""). }
  rewrite E. clear E.
  induction F as [|x xs [Nx Cx] F IH]; [reflexivity|].
  destruct xs as [|y xs].
  - change (Js.join "," [x]) with x. rewrite (split_plain _ Cx).
    unfold JsArray.filterBoolean. cbn [filter Js.truthy].
    apply String.eqb_neq in Nx. now rewrite Nx.
  - rewrite join_cons2. cbn [append]. rewrite (split_piece_then _ _ Cx).
    unfold JsArray.filterBoolean in *. cbn [filter Js.truthy] in *.
    apply String.eqb_neq in Nx. rewrite Nx. cbn [negb]. now rewrite IH.
Qed.

(** X14. The lists that [POST /configure] stores are clean: every stored
    entry is non-empty and holds no comma, whatever the form field; and a
    field that is missing or empty gives the empty list. *)
Theorem configure_entries_plain (body : Body) :
  Forall Plain (countries (configure body))
  /\ Forall Plain (genres (configure body))
  /\ (Js.truthy (bodyCountries body) = false ->
      countries (configure body) = [])
  /\ (Js.truthy (bodyGenres body) = false -> genres (configure body) = []).
Proof.
  assert (P : forall field, Forall Plain (parseList field)).
  { intros field. apply Forall_forall. intros x Hx.
    unfold parseList, JsArray.filterBoolean in Hx.
    apply filter_In in Hx. destruct Hx as [Hx T]. split.
    - simpl in T. apply negb_true_iff in T. now apply String.eqb_neq.
    - now apply split_pieces in Hx. }
  assert (E : forall field, Js.truthy field = false -> parseList field = []).
  { intros [| |s]; simpl; intros H; try reflexivity.
    apply negb_false_iff, String.eqb_eq in H. now subst. }
  repeat split; [apply P | apply P | apply E | apply E].
Qed.

Lemma configure_entries_plain_witness :
  countries (configure (mkBody Js.Undefined (Js.Str ",news,,sports,"))) = [].
Proof.
  apply (proj1 (proj2 (proj2 (configure_entries_plain
                                (mkBody Js.Undefined
                                   (Js.Str ",news,,sports,")))))).
  reflexivity.
Defined.

Example configure_skips_empty_pieces :
  configure (mkBody (Js.Str "US,,UK,") (Js.Str ",news,,sports,"))
  = mkConfig ["US"; "UK"] ["news"; "sports"].
Proof. reflexivity. Qed.

(** X15. The form round-trips: when the page holds selections whose
    entries are non-empty and free of commas, what [update] writes into
    the two hidden inputs is read back by [POST /configure] as exactly
    those selections, in the same order. *)
Theorem configure_reads_back_selection (cs gs : list string) :
  Forall Plain cs -> Forall Plain gs ->
  configure (mkBody (Js.Str (hiddenInput cs)) (Js.Str (hiddenInput gs)))
  = mkConfig cs gs.
Proof.
  intros Fc Fg. unfold configure, hiddenInput. cbn [bodyCountries bodyGenres].
  now rewrite !parseList_join.
Qed.

Lemma configure_reads_back_selection_witness :
  configure (mkBody (Js.Str (hiddenInput ["US"; "UK"]))
                    (Js.Str (hiddenInput [])))
  = mkConfig ["US"; "UK"] [].
Proof.
  apply (configure_reads_back_selection ["US"; "UK"] []).
  - repeat constructor; discriminate.
  - constructor.
Defined.

(** ** The manifest *)

Section InsertSorted.
Context {A : Type} (cmp : A -> A -> Z) (R : A -> A -> Prop).
Hypothesis cmp_le : forall x y, (cmp x y <= 0)%Z -> R x y.
Hypothesis cmp_gt : forall x y, (0 < cmp x y)%Z -> R y x.




End InsertSorted.







Example allGenres_sample :
  allGenres [channelSports; channelBare; channelBBC; channelCNN]
  = ["general"; "news"; "sports"].
Proof. reflexivity. Qed.



Example manifest_sample_ids :
  map Catalog.id
    (Manifest.catalogs
       (manifestHandler sampleCountries ["UK"; "US"] (mkConfig [] [])
          [channelBBC]))
  = ["iptv-all"; "iptv-country-uk"; "iptv-country-us"].
Proof. reflexivity. Qed.

(** ** The selection lists of the configuration page *)

Lemma indexOf_absent (xs : list string) (v : string) :
  ~ In v xs -> JsArray.indexOf xs v = (-1)%Z.
Proof.
  induction xs as [|x xs IH]; intros N; [reflexivity|]. cbn [JsArray.indexOf].
  destruct (String.eqb_spec x v) as [->|D]; [elim N; now left|].
  rewrite IH by (intros H; apply N; now right). reflexivity.
Qed.

Lemma indexOf_first (pre : list string) (v : string) (post : list string) :
  ~ In v pre ->
  JsArray.indexOf (pre ++ v :: post)%list v = Z.of_nat (length pre).
Proof.
  induction pre as [|x pre IH]; intros N.
  - cbn. now rewrite String.eqb_refl.
  - cbn [app JsArray.indexOf length].
    destruct (String.eqb_spec x v) as [->|D]; [elim N; now left|].
    rewrite IH by (intros H; apply N; now right).
    destruct (Z.ltb_spec (Z.of_nat (length pre)) 0); lia.
Qed.

Lemma splice1_at (pre : list string) (v : string) (post : list string) :
  JsArray.splice1 (pre ++ v :: post)%list (Z.of_nat (length pre))
  = (pre ++ post)%list.
Proof.
  unfold JsArray.splice1. rewrite Nat2Z.id.
  rewrite firstn_app, firstn_all, Nat.sub_diag. cbn [firstn].
  rewrite app_nil_r. f_equal.
  change (S (length pre)) with (1 + length pre)%nat.
  rewrite <- skipn_skipn.
  rewrite skipn_app, skipn_all, Nat.sub_diag. reflexivity.
Qed.

(** [toggle] appends a value that is not selected, and otherwise removes
    its first occurrence. *)
Lemma toggle_absent (xs : list string) (v : string) :
  ~ In v xs -> toggle xs v = (xs ++ [v])%list.
Proof.
  intros N. unfold toggle. now rewrite (indexOf_absent _ _ N).
Qed.

Lemma toggle_present (pre : list string) (v : string) (post : list string) :
  ~ In v pre -> toggle (pre ++ v :: post)%list v = (pre ++ post)%list.
Proof.
  intros N. unfold toggle. rewrite (indexOf_first _ _ _ N).
  destruct (Z.leb_spec 0 (Z.of_nat (length pre))); [|lia].
  apply splice1_at.
Qed.

Lemma In_split_first (xs : list string) (v : string) :
  In v xs -> exists pre post, xs = (pre ++ v :: post)%list /\ ~ In v pre.
Proof.
  induction xs as [|x xs IH]; intros H; [destruct H|].
  destruct (String.eqb_spec x v) as [->|D].
  - exists [], xs. split; [reflexivity | intros []].
  - destruct H as [H|H]; [contradiction|].
    destruct (IH H) as (pre & post & -> & N).
    exists (x :: pre), post. split; [reflexivity|].
    intros [E|E]; [contradiction | now apply N].
Qed.

Lemma In_dec_string (v : string) (xs : list string) : In v xs \/ ~ In v xs.
Proof. destruct (in_dec string_dec v xs); [now left | now right]. Qed.

(** X18. On a selection without duplicates, [toggle] flips the membership
    of the clicked value and of no other, and leaves the selection without
    duplicates; clicking a value that was not selected and then clicking
    it again restores the selection, order included. *)
Theorem toggle_flips_membership (selected : list string) (value : string) :
  NoDup selected ->
  NoDup (toggle selected value)
  /\ (In value (toggle selected value) <-> ~ In value selected)
  /\ (forall w, w <> value ->
        (In w (toggle selected value) <-> In w selected))
  /\ (~ In value selected ->
      toggle (toggle selected value) value = selected).
Proof.
  intros N. destruct (In_dec_string value selected) as [H|H].
  - destruct (In_split_first _ _ H) as (pre & post & -> & Npre).
    rewrite (toggle_present _ _ _ Npre).
    pose proof (NoDup_remove _ _ _ N) as [N' Nv].
    split; [exact N'|]. split; [|split].
    + split; [contradiction | intros A; now elim A].
    + intros w D. rewrite !in_app_iff. simpl. intuition congruence.
    + intros A. now elim A.
  - rewrite (toggle_absent _ _ H). split; [|split; [|split]].
    + apply NoDup_app; [assumption | repeat constructor; intros [] |].
      intros x Hx [<-|[]]. contradiction.
    + rewrite in_app_iff. simpl. tauto.
    + intros w D. rewrite in_app_iff. simpl. intuition congruence.
    + intros _. rewrite (toggle_present selected value [] H).
      apply app_nil_r.
Qed.

Lemma toggle_flips_membership_witness :
  NoDup (toggle ["US"; "UK"; "FR"] "UK")
  /\ toggle (toggle ["US"; "UK"] "FR") "FR" = ["US"; "UK"].
Proof.
  split.
  - apply (toggle_flips_membership ["US"; "UK"; "FR"] "UK").
    repeat constructor; simpl; intuition discriminate.
  - apply (toggle_flips_membership ["US"; "UK"] "FR").
    + repeat constructor; simpl; intuition discriminate.
    + simpl. intuition discriminate.
Defined.

Example toggle_sample :
  toggle ["US"; "UK"; "FR"] "UK" = ["US"; "FR"]
  /\ toggle ["US"; "FR"] "UK" = ["US"; "FR"; "UK"].
Proof. split; reflexivity. Qed.

(** ** The description of a meta object *)

Lemma filterBoolean_app (xs ys : list Js.value) :
  filterBoolean (xs ++ ys)%list = (filterBoolean xs ++ filterBoolean ys)%list.
Proof.
  induction xs as [|x xs IH]; [reflexivity|]. cbn [app filterBoolean].
  destruct (Js.truthy x); cbn [app]; now rewrite IH.
Qed.

Lemma filterBoolean_parts (xs : list Js.value) (p : string) :
  In p (filterBoolean xs) -> p <> "".
Proof.
  induction xs as [|x xs IH]; [intros []|]. cbn [filterBoolean].
  destruct (Js.truthy x) eqn:T; [|assumption].
  intros [<-|H]; [|now apply IH].
  apply truthy_Present in T. now destruct T.
Qed.

Lemma filterBoolean_nil (xs : list Js.value) :
  filterBoolean xs = [] <-> forall x, In x xs -> Js.truthy x = false.
Proof.
  induction xs as [|x xs IH]; cbn [filterBoolean].
  - split; [intros _ x [] | reflexivity].
  - destruct (Js.truthy x) eqn:T.
    + split; [discriminate|]. intros H.
      specialize (H x (or_introl eq_refl)). congruence.
    + rewrite IH. split.
      * intros H y [<-|Hy]; [assumption | now apply H].
      * intros H y Hy. apply H. now right.
Qed.

Lemma join_snoc (sep : string) (l : list string) (x : string) :
  Js.join sep (l ++ [x])%list
  = match l with
    | [] => x
    | _ :: _ => Js.join sep l ++ sep ++ x
    end.
Proof.
  induction l as [|a l IH]; [reflexivity|].
  destruct l as [|b l]; [reflexivity|].
  change (Js.join sep ((a :: b :: l) ++ [x])%list)
    with (a ++ sep ++ Js.join sep ((b :: l) ++ [x])%list).
  rewrite IH. rewrite join_cons2. now rewrite !app_assoc_str.
Qed.

Lemma append_empty (a b : string) : a ++ b = "" -> a = "".
Proof. destruct a; [reflexivity | discriminate]. Qed.

Lemma join_empty (sep : string) (l : list string) :
  (forall p, In p l -> p <> "") -> Js.join sep l = "" -> l = [].
Proof.
  intros H E. destruct l as [|a l]; [reflexivity|]. exfalso.
  apply (H a (or_introl eq_refl)).
  destruct l as [|b l]; [exact E|].
  rewrite join_cons2 in E. now apply append_empty in E.
Qed.

Lemma truthy_or (a b : Js.value) :
  Js.truthy (Js.or a b) = Js.truthy a || Js.truthy b.
Proof. unfold Js.or. destruct (Js.truthy a) eqn:T; [exact T | reflexivity]. Qed.

(** X19. When guide details are given, the description ends with the
    text ["Now: <nowPlaying> • Next: <next>"]; what comes before it is
    empty or ends with the separator [" • "]. *)
Theorem describe_ends_with_guide (COUNTRIES : string -> Js.value)
    (channel : Channel.t) (d : GuideDetails.t) :
  exists before,
    describe COUNTRIES channel (Some d)
    = before ++ "Now: " ++ GuideDetails.nowPlaying d
             ++ " • Next: " ++ GuideDetails.next d
    /\ (before = "" \/ exists parts, before = parts ++ " • ").
Proof.
  unfold describe.
  set (a := Js.or _ _). set (b := match Channel.categories channel with
                                   | Some cs => Js.Str (Js.join ", " cs)
                                   | None => Js.Undefined
                                   end).
  set (g := "Now: " ++ GuideDetails.nowPlaying d
            ++ " • Next: " ++ GuideDetails.next d).
  change [a; b; Js.Str g] with ([a; b] ++ [Js.Str g])%list.
  rewrite filterBoolean_app.
  assert (G : filterBoolean [Js.Str g] = [g]) by reflexivity.
  rewrite G, join_snoc.
  destruct (filterBoolean [a; b]) as [|p ps].
  - exists "". split; [reflexivity | now left].
  - exists (Js.join " • " (p :: ps) ++ " • "). split.
    + now rewrite app_assoc_str.
    + right. now exists (Js.join " • " (p :: ps)).
Qed.

(** X20. The description is empty exactly when there is nothing to show:
    the country has no display name and is itself missing or empty, the
    categories are missing or join to the empty string, and no guide
    details are given. *)
Theorem describe_empty_iff (COUNTRIES : string -> Js.value)
    (channel : Channel.t) (guideDetails : option GuideDetails.t) :
  describe COUNTRIES channel guideDetails = ""
  <-> Js.truthy (COUNTRIES (Js.toString (Channel.country channel))) = false
      /\ Js.truthy (Channel.country channel) = false
      /\ (forall cs, Channel.categories channel = Some cs ->
                     Js.join ", " cs = "")
      /\ guideDetails = None.
Proof.
  unfold describe.
  set (parts := [_; _; _]).
  assert (E : Js.join " • " (filterBoolean parts) = ""
              <-> filterBoolean parts = []).
  { split; [|intros ->; reflexivity].
    apply join_empty. intros p. apply filterBoolean_parts. }
  rewrite E, filterBoolean_nil. unfold parts. split.
  - intros H.
    pose proof (H _ (or_introl eq_refl)) as H1.
    pose proof (H _ (or_intror (or_introl eq_refl))) as H2.
    pose proof (H _ (or_intror (or_intror (or_introl eq_refl)))) as H3.
    rewrite truthy_or in H1. apply orb_false_iff in H1. destruct H1 as [A B].
    repeat split; try assumption.
    + intros cs Ecs. rewrite Ecs in H2. simpl in H2.
      now apply negb_false_iff, String.eqb_eq in H2.
    + destruct guideDetails; [discriminate H3 | reflexivity].
  - intros (A & B & C & ->) x [<-|[<-|[<-|[]]]].
    + rewrite truthy_or, A, B. reflexivity.
    + destruct (Channel.categories channel) as [cs|]; [|reflexivity].
      simpl. rewrite (C cs eq_refl). reflexivity.
    + reflexivity.
Qed.

Example describe_sample :
  describe sampleCountries channelBBC (extractGuideDetails (Some guideCNN))
  = "United Kingdom • general, news • Now: Newsroom • Next: Unknown".
Proof. reflexivity. Qed.

Example describe_unknown_country :
  describe sampleCountries channelBare None = "FR".
Proof. reflexivity. Qed.
